(** * demo-parser: the event-aggregation engine and its HTTP wrapper

    A shallow embedding of [main.go].  The replay decoder
    (demoinfocs-golang), the network and [encoding/json] are external to
    the repository; they appear as an interface ([Demoinfocs]) and as a
    record of outcomes ([World]).  Everything else is translated function
    by function from the source and keeps its names. *)

From Stdlib Require Import ZArith Ascii String List SpecFloat QArith Qabs Lia.
From stdpp Require Import gmap strings list fin_maps pretty.

Local Open Scope Z_scope.

(** ** Go's [int] on the 64-bit targets the service is built for *)

Module GoInt.

Definition min_int : Z := - 2 ^ 63.
Definition max_int : Z := 2 ^ 63 - 1.

Definition in_range (z : Z) : Prop := min_int <= z <= max_int.

(** Two's-complement wrap-around of a mathematical integer. *)
Definition wrap (z : Z) : Z := (z + 2 ^ 63) mod 2 ^ 64 - 2 ^ 63.

Definition add (a b : Z) : Z := wrap (a + b).
Definition sub (a b : Z) : Z := wrap (a - b).

(** Go's [/] on integers truncates toward zero.  The only divisor in the
    program is the constant 128, so the division-by-zero panic is not
    modelled. *)
Definition quot (a b : Z) : Z := wrap (Z.quot a b).

End GoInt.

(** ** float64 values and the conversion [int(f)] *)

Abbreviation float64 := spec_float.

Definition float64_zero : float64 := S754_zero false.

(** The value of a finite float with its fraction discarded. *)
Definition float64_trunc (f : float64) : option Z :=
  match f with
  | S754_zero _ => Some 0
  | S754_finite s m e =>
      let a := if Z.leb 0 e then Z.pos m * 2 ^ e else Z.pos m / 2 ^ (- e) in
      Some (if s then - a else a)
  | S754_infinity _ | S754_nan => None
  end.

(** [int(f)]: truncation toward zero.  For NaN, infinities and values that
    do not fit, the Go specification leaves the result to the
    implementation; amd64's CVTTSD2SQ yields the minimal integer. *)
Definition int_of_float64 (f : float64) : Z :=
  match float64_trunc f with
  | Some z => if decide (GoInt.in_range z) then z else GoInt.min_int
  | None => GoInt.min_int
  end.

(** The exact rational value of a finite float. *)
Definition float64_Q (f : float64) : Q :=
  match f with
  | S754_finite s m e =>
      let n := if s then Z.neg m else Z.pos m in
      if Z.leb 0 e then inject_Z (n * 2 ^ e)
    else Qmake n (Z.to_pos (2 ^ (- e)))
  | _ => 0%Q
  end.

(** ** Dynamic values stored in [map[string]interface{}] *)

Inductive Any :=
  | ANil
  | AString (s : string)
  | ABool (b : bool)
  | AInt (z : Z).

(** ** Go's (value, error) results; an [error] is its message *)

Inductive GoResult (A : Type) :=
  | Ok (a : A)
  | Err (e : string).
Arguments Ok {A} a.
Arguments Err {A} e.

(** A call returns or panics.  Nothing in [main.go] recovers a panic: one
    raised in a handler or in the decoder leaves [parseDemo] and
    [parseHandler], and the HTTP server drops the connection. *)
Inductive Outcome (A : Type) :=
  | Returned (a : A)
  | Panic.
Arguments Returned {A} a.
Arguments Panic {A}.

(** [fmt.Sprintf("%d", n)] on an unsigned integer. *)
Definition Sprintf_d (n : N) : string := pretty n.

(** ** The demoinfocs-golang interface, as far as [main.go] uses it *)

Module common.

Inductive Team :=
  | TeamUnassigned
  | TeamSpectators
  | TeamTerrorists
  | TeamCounterTerrorists.

#[global] Instance Team_eq_dec : EqDecision Team.
Proof. solve_decision. Defined.

Module Player.
Record t := mk { SteamID64 : N; Name : string; Team : common.Team }.
End Player.
Abbreviation Player := Player.t.

(** Only [String()] is ever called on a weapon. *)
Module Equipment.
Record t := mk { EquipmentType : Z }.
End Equipment.
Abbreviation Equipment := Equipment.t.

(** What the program reads of [p.Header()]: the [MapName] field and the
    values returned by [PlaybackTime.Seconds()] and [FrameRate()]. *)
Module DemoHeader.
Record t := mk {
  MapName : string;
  PlaybackTime_Seconds : float64;
  FrameRate : float64
}.
End DemoHeader.
Abbreviation DemoHeader := DemoHeader.t.

End common.

Module events.

Module RoundEndReason.
Record t := mk { code : N }.
End RoundEndReason.
Abbreviation RoundEndReason := RoundEndReason.t.

Module RoundStart.
Record t := mk { TimeLimit : Z; FragLimit : Z; Objective : string }.
End RoundStart.
Abbreviation RoundStart := RoundStart.t.

Module RoundEnd.
Record t := mk {
  Message : string;
  Reason : RoundEndReason;
  Winner : common.Team
}.
End RoundEnd.
Abbreviation RoundEnd := RoundEnd.t.

(** A nil [*common.Player] or [*common.Equipment] is [None]. *)
Module Kill.
Record t := mk {
  Weapon : option common.Equipment;
  Victim : option common.Player;
  Killer : option common.Player;
  Assister : option common.Player;
  PenetratedObjects : Z;
  IsHeadshot : bool
}.
End Kill.
Abbreviation Kill := Kill.t.

End events.

(** What a handler can read of [p.GameState()] while it runs.
    [TotalRoundsPlayed] is the decoder's own round number; no handler
    reads it. *)
Module GameState.
Record t := mk {
  IngameTick : Z;
  CT_Score : Z;
  T_Score : Z;
  TotalRoundsPlayed : Z
}.
End GameState.
Abbreviation GameState := GameState.t.

(** The events the decoder dispatches.  [EvOther] stands for every event
    type without a registered handler. *)
Inductive Event :=
  | EvRoundStart (e : events.RoundStart)
  | EvRoundEnd (e : events.RoundEnd)
  | EvKill (e : events.Kill)
  | EvOther.

(** One run of [p.ParseToEnd()]: the events the decoder dispatches as long
    as the handlers return, each with the game state visible to its
    handler, then the error returned (if any) and the header.  A handler
    that panics ends the run: nothing is dispatched after it. *)
Module ParserRun.
Record t := mk {
  dispatched : list (GameState * Event);
  ParseToEnd : option string;
  Header : common.DemoHeader
}.
End ParserRun.
Abbreviation ParserRun := ParserRun.t.

(** Go's [fmt.Stringer]. *)
Class Stringer (A : Type) := GoString : A → string.

(** The library: its [String()] methods and the decoder itself.  The
    decoder can panic instead of returning a parser, as it does on an
    empty buffer. *)
Class Demoinfocs := {
  Team_String :: Stringer common.Team;
  Reason_String :: Stringer events.RoundEndReason;
  Equipment_String :: Stringer common.Equipment;
  NewParser : list Byte.byte → Outcome ParserRun
}.

(** ** The data model of [main.go] *)

Module ParseRequest.
Record t := mk { DemoID : string; FilePath : string }.
End ParseRequest.
Abbreviation ParseRequest := ParseRequest.t.

Module Player.
Record t := mk {
  SteamID : string;
  Name : string;
  Team : string;
  Kills : Z;
  Deaths : Z;
  Assists : Z;
  ADR : float64;
  HSP : float64;
  KAST : float64;
  Rating : float64;
  Stats : gmap string Any
}.

(** [p.Kills++], [p.Deaths++] and [p.Assists++]. *)
Definition incKills (p : t) : t :=
  mk (SteamID p) (Name p) (Team p) (GoInt.add (Kills p) 1) (Deaths p)
     (Assists p) (ADR p) (HSP p) (KAST p) (Rating p) (Stats p).
Definition incDeaths (p : t) : t :=
  mk (SteamID p) (Name p) (Team p) (Kills p) (GoInt.add (Deaths p) 1)
     (Assists p) (ADR p) (HSP p) (KAST p) (Rating p) (Stats p).
Definition incAssists (p : t) : t :=
  mk (SteamID p) (Name p) (Team p) (Kills p) (Deaths p)
     (GoInt.add (Assists p) 1) (ADR p) (HSP p) (KAST p) (Rating p) (Stats p).
End Player.
Abbreviation Player := Player.t.

Module Round.
Record t := mk {
  RoundNumber : Z;
  WinnerSide : string;
  WinReason : string;
  CTScore : Z;
  TScore : Z;
  DurationSeconds : Z;
  RoundData : gmap string Any
}.
End Round.
Abbreviation Round := Round.t.

Module GameEvent.
Record t := mk {
  EventType : string;
  Tick : Z;
  RoundNumber : Z;
  EventData : gmap string Any
}.
End GameEvent.
Abbreviation GameEvent := GameEvent.t.

Module Metadata.
Record t := mk { MapName : string; Duration : Z; TickRate : Z }.
End Metadata.
Abbreviation Metadata := Metadata.t.

Module ParsedData.
Record t := mk {
  DemoID : string;
  Players : list Player;
  Rounds : list Round;
  Events : list GameEvent;
  Metadata : Metadata.t
}.
End ParsedData.
Abbreviation ParsedData := ParsedData.t.

(** ** The aggregation engine: [parseDemo] and its handlers *)

(** A [*Player] is a location in [heap]; [playerStats] is the
    [map[uint64]*Player].  [parsed], [currentRound] and [startTick] are the
    variables the handler closures capture. *)
Record State := mkState {
  parsed : ParsedData;
  heap : list Player;
  playerStats : gmap N nat;
  currentRound : Z;
  startTick : Z
}.

Definition set_Rounds (rs : list Round) (d : ParsedData) : ParsedData :=
  ParsedData.mk (ParsedData.DemoID d) (ParsedData.Players d) rs
    (ParsedData.Events d) (ParsedData.Metadata d).

Definition set_Events (es : list GameEvent) (d : ParsedData) : ParsedData :=
  ParsedData.mk (ParsedData.DemoID d) (ParsedData.Players d)
    (ParsedData.Rounds d) es (ParsedData.Metadata d).

(** [getOrCreatePlayer(stats, p)]: the pointer returned, with the heap and
    the map after the call. *)
Definition getOrCreatePlayer (h : list Player) (stats : gmap N nat)
    (p : option common.Player) : list Player * gmap N nat * option nat :=
  match p with
  | None => (h, stats, None)
  | Some p =>
      match stats !! common.Player.SteamID64 p with
      | Some player => (h, stats, Some player)
      | None =>
          let team :=
            if decide (common.Player.Team p = common.TeamTerrorists) then "T"
            else if decide (common.Player.Team p = common.TeamCounterTerrorists)
                 then "CT"
                 else "spectator" in
          let player :=
            Player.mk (Sprintf_d (common.Player.SteamID64 p))
              (common.Player.Name p) team 0 0 0
              float64_zero float64_zero float64_zero float64_zero ∅ in
          (h ++ [player],
           <[common.Player.SteamID64 p := length h]> stats,
           Some (length h))
      end
  end.

Definition getPlayerName (p : option common.Player) : string :=
  match p with
  | None => "unknown"
  | Some p => common.Player.Name p
  end.

(** [ptr.Field++] through a pointer obtained from [getOrCreatePlayer].  The
    callers guard against nil, so the nil case (a panic in Go) is never
    reached; see [getOrCreatePlayer_Some]. *)
Definition bump (f : Player → Player) (ptr : option nat)
    (h : list Player) : list Player :=
  match ptr with
  | Some l => alter f l h
  | None => h
  end.

(** The guarded blocks of the kill handler:
    [if x != nil { a := getOrCreatePlayer(playerStats, x); a.Field++ }]. *)
Definition count (f : Player → Player) (x : option common.Player)
    (st : State) : State :=
  match x with
  | Some _ =>
      let '(h, stats, ptr) := getOrCreatePlayer (heap st) (playerStats st) x in
      mkState (parsed st) (bump f ptr h) stats (currentRound st) (startTick st)
  | None => st
  end.

Section Engine.

Context `{Demoinfocs}.

Definition onRoundStart (gs : GameState) (e : events.RoundStart)
    (st : State) : State :=
  mkState (parsed st) (heap st) (playerStats st)
    (GoInt.add (currentRound st) 1) (GameState.IngameTick gs).

Definition onRoundEnd (gs : GameState) (e : events.RoundEnd)
    (st : State) : State :=
  let r :=
    Round.mk (currentRound st)
      (GoString (events.RoundEnd.Winner e))
      (GoString (events.RoundEnd.Reason e))
      (GameState.CT_Score gs)
      (GameState.T_Score gs)
      (GoInt.quot (GoInt.sub (GameState.IngameTick gs) (startTick st)) 128)
      ∅ in
  mkState (set_Rounds (ParsedData.Rounds (parsed st) ++ [r]) (parsed st))
    (heap st) (playerStats st) (currentRound st) (startTick st).

(** The [eventData] literal of the kill handler, once [e.Weapon] has been
    dereferenced. *)
Definition killEventData (e : events.Kill) (weapon : common.Equipment)
    : gmap string Any :=
  <["killer" := AString (getPlayerName (events.Kill.Killer e))]>
  (<["victim" := AString (getPlayerName (events.Kill.Victim e))]>
  (<["weapon" := AString (GoString weapon)]>
  (<["isHeadshot" := ABool (events.Kill.IsHeadshot e)]>
  (<["penetrated" := AInt (events.Kill.PenetratedObjects e)]> ∅)))).

(** The kill handler, up to the point where it stops.  [e.Weapon.String()]
    is called without a nil check: on a kill without weapon the handler
    panics there, after the counters have been raised and before anything
    is appended ([panics] tells the two cases apart). *)
Definition onKill (gs : GameState) (e : events.Kill) (st : State) : State :=
  let st := count Player.incKills (events.Kill.Killer e) st in
  let st := count Player.incDeaths (events.Kill.Victim e) st in
  let st := count Player.incAssists (events.Kill.Assister e) st in
  match events.Kill.Weapon e with
  | None => st
  | Some weapon =>
      let eventData := killEventData e weapon in
      let ev :=
        GameEvent.mk "kill" (GameState.IngameTick gs) (currentRound st)
          eventData in
      mkState (set_Events (ParsedData.Events (parsed st) ++ [ev]) (parsed st))
        (heap st) (playerStats st) (currentRound st) (startTick st)
  end.

(** The handler of the event panics instead of returning. *)
Definition panics (d : GameState * Event) : bool :=
  match d.2 with
  | EvKill e =>
      match events.Kill.Weapon e with None => true | Some _ => false end
  | _ => false
  end.

(** The decoder calls the handler registered for the event's type; the
    result is the state when the handler stops. *)
Definition handle (st : State) (d : GameState * Event) : State :=
  match d.2 with
  | EvRoundStart e => onRoundStart d.1 e st
  | EvRoundEnd e => onRoundEnd d.1 e st
  | EvKill e => onKill d.1 e st
  | EvOther => st
  end.

Definition initial (demoID : string) : State :=
  mkState (ParsedData.mk demoID [] [] [] (Metadata.mk "" 0 0)) [] ∅ 0 0.

(** The state after the handlers of [es], one after the other.  In a
    sequence the decoder really dispatches, only the last event can be one
    whose handler panics; [run] is then the state at that panic. *)
Definition run (es : list (GameState * Event)) (st : State) : State :=
  fold_left handle es st.

(** [for _, player := range playerStats { ... append(..., *player) }].
    Go leaves the iteration order of a map unspecified; the order of
    [map_to_list] stands for one of them. *)
Definition drain (st : State) : list Player :=
  omap (λ kv : N * nat, heap st !! kv.2) (map_to_list (playerStats st)).

Definition finish (header : common.DemoHeader) (st : State) : ParsedData :=
  ParsedData.mk
    (ParsedData.DemoID (parsed st))
    (ParsedData.Players (parsed st) ++ drain st)
    (ParsedData.Rounds (parsed st))
    (ParsedData.Events (parsed st))
    (Metadata.mk
       (common.DemoHeader.MapName header)
       (int_of_float64 (common.DemoHeader.PlaybackTime_Seconds header))
       (int_of_float64 (common.DemoHeader.FrameRate header))).

(** [parseDemo]: it panics when the decoder does and when the handler of
    a dispatched event does; otherwise it returns what [ParseToEnd]
    decides. *)
Definition parseDemo (demoID : string) (data : list Byte.byte)
    : Outcome (GoResult ParsedData) :=
  match NewParser data with
  | Panic => Panic
  | Returned p =>
      if existsb panics (ParserRun.dispatched p) then Panic
      else
        let st := run (ParserRun.dispatched p) (initial demoID) in
        match ParserRun.ParseToEnd p with
        | Some err => Returned (Err err)
        | None => Returned (Ok (finish (ParserRun.Header p) st))
        end
  end.

End Engine.

(** ** Shapes of event sequences *)

Definition is_round_start (d : GameState * Event) : bool :=
  match d.2 with EvRoundStart _ => true | _ => false end.

Definition is_round_end (d : GameState * Event) : bool :=
  match d.2 with EvRoundEnd _ => true | _ => false end.

(** Neither a round-start nor a round-end. *)
Definition quiet (d : GameState * Event) : bool :=
  negb (is_round_start d || is_round_end d).

Definition starts (es : list (GameState * Event)) : nat :=
  length (filter (λ d, is_round_start d = true) es).

(** The type of an event, without its payload and without the game state
    it was dispatched in. *)
Inductive Kind := KRoundStart | KRoundEnd | KKill | KOther.

Definition kind (d : GameState * Event) : Kind :=
  match d.2 with
  | EvRoundStart _ => KRoundStart
  | EvRoundEnd _ => KRoundEnd
  | EvKill _ => KKill
  | EvOther => KOther
  end.

(** ** The HTTP wrapper: [parseHandler], [downloadDemo], [sendToWebhook] *)

Module HttpRequest.
Record t := mk {
  Method : string;
  URL : string;
  Header : gmap string string;
  Body : list Byte.byte
}.
End HttpRequest.
Abbreviation HttpRequest := HttpRequest.t.

(** A response of a remote server: [ReadAll] is what [io.ReadAll(resp.Body)]
    returns, the bytes read and the error that stopped the reading. *)
Module HttpResponse.
Record t := mk {
  StatusCode : Z;
  ReadAll : list Byte.byte * option string
}.
End HttpResponse.
Abbreviation HttpResponse := HttpResponse.t.

(** The answers [http.Client] follows by itself: 301, 302, 303, 307 and
    308.  Neither client of [main.go] sets [CheckRedirect]. *)
Inductive Redirect :=
  | MovedPermanently
  | Found
  | SeeOther
  | TemporaryRedirect
  | PermanentRedirect.

(** One redirect the client follows: the status of the answer, the URL it
    names and the headers the client sends on the next request (those of
    the first request, without the credentials when the host changes). *)
Module Hop.
Record t := mk {
  Status : Redirect;
  Location : string;
  Header : gmap string string
}.
End Hop.
Abbreviation Hop := Hop.t.

(** The request the client sends after a redirect: 301, 302 and 303 turn
    every method but GET and HEAD into GET and drop the body; 307 and 308
    repeat the method and the body. *)
Definition follow (req : HttpRequest) (h : Hop) : HttpRequest :=
  match Hop.Status h with
  | MovedPermanently | Found | SeeOther =>
      HttpRequest.mk
        (if decide (HttpRequest.Method req = "GET"
                    ∨ HttpRequest.Method req = "HEAD")
         then HttpRequest.Method req else "GET")
        (Hop.Location h) (Hop.Header h) []
  | TemporaryRedirect | PermanentRedirect =>
      HttpRequest.mk (HttpRequest.Method req) (Hop.Location h) (Hop.Header h)
        (HttpRequest.Body req)
  end.

(** The requests sent after [req] along a chain of redirects. *)
Fixpoint followed (req : HttpRequest) (hops : list Hop) : list HttpRequest :=
  match hops with
  | [] => []
  | h :: hops => follow req h :: followed (follow req h) hops
  end.

(** Everything outside the process: the environment variables, the remote
    servers behind [client.Do], and the standard library's JSON codec and
    URL validation.  [client_Do req] is the chain of redirects the servers
    answer [req] with and the client follows, and then the last answer or
    the error that ended the call (a transport failure, a time-out, too
    many redirects). *)
Record World := mkWorld {
  Getenv : string → string;
  json_Decode : list Byte.byte → GoResult ParseRequest;
  json_Marshal : ParsedData → GoResult (list Byte.byte);
  NewRequest_error : string → string → option string;
  client_Do : HttpRequest → list Hop * GoResult HttpResponse
}.

(** What a handler does to the outside: log lines and requests sent. *)
Inductive Effect :=
  | Logged (line : string)
  | Sent (req : HttpRequest).

(** Computations that record their effects, in order. *)
Definition IO (A : Type) : Type := A * list Effect.

#[global] Instance IO_ret : MRet IO := λ A a, (a, []).
#[global] Instance IO_bind : MBind IO := λ A B f m,
  let '(a, l1) := m in let '(b, l2) := f a in (b, l1 ++ l2).

Definition log_Printf (line : string) : IO unit := (tt, [Logged line]).

Definition StatusOK : Z := 200.
Definition StatusBadRequest : Z := 400.
Definition StatusMethodNotAllowed : Z := 405.
Definition StatusInternalServerError : Z := 500.
Definition MethodPost : string := "POST".

Definition newline : string := String "010"%char EmptyString.
Definition dquote : string := String "034"%char EmptyString.

(** The request as [parseHandler] reads it. *)
Module Request.
Record t := mk { Method : string; Body : list Byte.byte }.
End Request.
Abbreviation Request := Request.t.

(** An [http.ResponseWriter]: the status line once written, the headers
    and the body bytes written so far. *)
Module ResponseWriter.
Record t := mk {
  Status : option Z;
  Header : gmap string string;
  Written : string
}.

Definition fresh : t := mk None ∅ "".

Definition WriteHeader (code : Z) (w : t) : t :=
  match Status w with
  | Some _ => w
  | None => mk (Some code) (Header w) (Written w)
  end.

Definition Write (data : string) (w : t) : t :=
  let w := WriteHeader StatusOK w in
  mk (Status w) (Header w) (Written w +:+ data).
End ResponseWriter.
Abbreviation ResponseWriter := ResponseWriter.t.

(** [http.Error(w, error, code)]. *)
Definition http_Error (w : ResponseWriter) (error : string) (code : Z)
    : ResponseWriter :=
  let h := delete "Content-Length" (ResponseWriter.Header w) in
  let h := <["Content-Type" := "text/plain; charset=utf-8"]> h in
  let h := <["X-Content-Type-Options" := "nosniff"]> h in
  let w := ResponseWriter.mk (ResponseWriter.Status w) h
             (ResponseWriter.Written w) in
  let w := ResponseWriter.WriteHeader code w in
  ResponseWriter.Write (error +:+ newline) w.

(** A JSON string literal, for contents that need no escaping. *)
Definition json_string (s : string) : string := dquote +:+ s +:+ dquote.

(** [json.NewEncoder(w).Encode(map[string]string{k: v})]. *)
Definition json_Encode_pair (k v : string) (w : ResponseWriter)
    : ResponseWriter :=
  ResponseWriter.Write
    ("{" +:+ json_string k +:+ ":" +:+ json_string v +:+ "}" +:+ newline) w.

Definition healthHandler (w : ResponseWriter) (r : Request)
    : ResponseWriter :=
  ResponseWriter.Write "OK" (ResponseWriter.WriteHeader StatusOK w).

Section Service.

Context `{Demoinfocs} (W : World).

(** [client.Do(req)]: [req] leaves the process, then one request per
    redirect followed. *)
Definition client_do (req : HttpRequest) : IO (GoResult HttpResponse) :=
  ((client_Do W req).2,
   Sent req :: (Sent <$> followed req (client_Do W req).1)).

Definition downloadDemo (filePath : string) : IO (GoResult (list Byte.byte)) :=
  let supabaseURL := Getenv W "SUPABASE_URL" in
  let serviceRoleKey := Getenv W "SUPABASE_SERVICE_ROLE_KEY" in
  let url := supabaseURL +:+ "/storage/v1/object/demos/" +:+ filePath in
  match NewRequest_error W "GET" url with
  | Some err => mret (Err err)
  | None =>
      let req :=
        HttpRequest.mk "GET" url
          (<["Authorization" := "Bearer " +:+ serviceRoleKey]> ∅) [] in
      resp ← client_do req;
      match resp with
      | Err err => mret (Err err)
      | Ok resp =>
          if decide (HttpResponse.StatusCode resp ≠ StatusOK)
          then mret (Err ("failed to download demo: status "
                          +:+ pretty (HttpResponse.StatusCode resp)))
          else
            match HttpResponse.ReadAll resp with
            | (_, Some err) => mret (Err err)
            | (body, None) => mret (Ok body)
            end
      end
  end.

Definition sendToWebhook (data : ParsedData) : IO (option string) :=
  let webhookURL := Getenv W "WEBHOOK_URL" in
  let secret := Getenv W "GO_SERVICE_SECRET" in
  match json_Marshal W data with
  | Err err => mret (Some err)
  | Ok jsonData =>
      match NewRequest_error W "POST" webhookURL with
      | Some err => mret (Some err)
      | None =>
          let req :=
            HttpRequest.mk "POST" webhookURL
              (<["Authorization" := "Bearer " +:+ secret]>
               (<["Content-Type" := "application/json"]> ∅)) jsonData in
          resp ← client_do req;
          match resp with
          | Err err => mret (Some err)
          | Ok resp =>
              if decide (HttpResponse.StatusCode resp ≠ StatusOK)
              then
                let body := (HttpResponse.ReadAll resp).1 in
                mret (Some ("webhook returned status "
                            +:+ pretty (HttpResponse.StatusCode resp)
                            +:+ ": " +:+ string_of_list_byte body))
              else mret None
          end
      end
  end.

(** [parseHandler].  A panic of [parseDemo] leaves the handler before it
    has written anything. *)
Definition parseHandler (w : ResponseWriter) (r : Request)
    : IO (Outcome ResponseWriter) :=
  if decide (Request.Method r ≠ MethodPost)
  then mret (Returned
               (http_Error w "Method not allowed" StatusMethodNotAllowed))
  else
    match json_Decode W (Request.Body r) with
    | Err err => mret (Returned (http_Error w err StatusBadRequest))
    | Ok req =>
        log_Printf ("Parsing demo: " +:+ ParseRequest.DemoID req);;
        d ← downloadDemo (ParseRequest.FilePath req);
        match d with
        | Err err =>
            log_Printf ("Error downloading demo: " +:+ err);;
            mret (Returned (http_Error w err StatusInternalServerError))
        | Ok demoData =>
            match parseDemo (ParseRequest.DemoID req) demoData with
            | Panic => mret Panic
            | Returned (Err err) =>
                log_Printf ("Error parsing demo: " +:+ err);;
                mret (Returned (http_Error w err StatusInternalServerError))
            | Returned (Ok parsedData) =>
                s ← sendToWebhook parsedData;
                match s with
                | Some err =>
                    log_Printf ("Error sending to webhook: " +:+ err);;
                    mret (Returned
                            (http_Error w err StatusInternalServerError))
                | None =>
                    mret (Returned
                            (json_Encode_pair "status" "success"
                               (ResponseWriter.WriteHeader StatusOK w)))
                end
            end
        end
    end.

End Service.

(** ** Reading the accumulators *)

(** The accumulator of an identity: the object its map entry points to. *)
Definition acc (st : State) (id : N) : option Player :=
  playerStats st !! id ≫= λ l, heap st !! l.

(** Counts of an identity; one that has no accumulator yet counts 0, the
    value its accumulator is created with. *)
Definition kills_of (st : State) (id : N) : Z :=
  from_option Player.Kills 0 (acc st id).
Definition deaths_of (st : State) (id : N) : Z :=
  from_option Player.Deaths 0 (acc st id).
Definition assists_of (st : State) (id : N) : Z :=
  from_option Player.Assists 0 (acc st id).

(** The struct literal of [getOrCreatePlayer]. *)
Definition fresh_accumulator (p : common.Player) : Player :=
  Player.mk (Sprintf_d (common.Player.SteamID64 p)) (common.Player.Name p)
    (if decide (common.Player.Team p = common.TeamTerrorists) then "T"
     else if decide (common.Player.Team p = common.TeamCounterTerrorists)
          then "CT"
          else "spectator")
    0 0 0 float64_zero float64_zero float64_zero float64_zero ∅.

(** The kill handler's effect on the store is that of its three guarded
    blocks, in order. *)
Definition counted (e : events.Kill) (st : State) : State :=
  count Player.incAssists (events.Kill.Assister e)
    (count Player.incDeaths (events.Kill.Victim e)
       (count Player.incKills (events.Kill.Killer e) st)).

(** The identity a reference names, if it is present. *)
Definition names (x : option common.Player) (id : N) : Prop :=
  ∃ p, x = Some p ∧ common.Player.SteamID64 p = id.

#[global] Instance names_dec x id : Decision (names x id).
Proof.
  destruct x as [p|].
  - destruct (decide (common.Player.SteamID64 p = id)) as [Heq|Hne].
    + left. by exists p.
    + right. intros (p' & [= <-] & Hp). done.
  - right. by intros (p' & [=] & _).
Defined.

(** The store is well formed: every map entry points to an allocated
    accumulator that carries the entry's identity, and every allocated
    accumulator is pointed to by some entry. *)
Definition store_ok (h : list Player) (stats : gmap N nat) : Prop :=
  (∀ id l, stats !! id = Some l →
     ∃ p, h !! l = Some p ∧ Player.SteamID p = Sprintf_d id)
  ∧ (∀ l p, h !! l = Some p → ∃ id, stats !! id = Some l).

(** At most one allocated accumulator carries the identity [id]. *)
Definition at_most_one (h : list Player) (id : N) : Prop :=
  ∀ l1 l2 p1 p2,
    h !! l1 = Some p1 → h !! l2 = Some p2 →
    Player.SteamID p1 = Sprintf_d id → Player.SteamID p2 = Sprintf_d id →
    l1 = l2.

(** Bounds on the three counters of an accumulator, and of every allocated
    accumulator. *)
Definition within (nk nd na : Z) (p : Player) : Prop :=
  0 <= Player.Kills p <= nk
  ∧ 0 <= Player.Deaths p <= nd
  ∧ 0 <= Player.Assists p <= na.

Definition heap_bounded (nk nd na : Z) (h : list Player) : Prop :=
  ∀ l p, h !! l = Some p → within nk nd na p.

(** A counter update that leaves the identity, the name and the team of
    an accumulator alone. *)
Definition keeps_labels (f : Player → Player) : Prop :=
  ∀ p, Player.SteamID (f p) = Player.SteamID p
       ∧ Player.Name (f p) = Player.Name p
       ∧ Player.Team (f p) = Player.Team p.

(** ** Rounding, for stating what [int(f)] does *)

(** [t] is [x] with its fraction discarded. *)
Definition truncation_of (x : Q) (t : Z) : Prop :=
  (Qabs (inject_Z t) <= Qabs x)%Q
  ∧ (Qabs x < Qabs (inject_Z t) + 1)%Q
  ∧ (0 <= inject_Z t * x)%Q.

(** [n] is an integer nearest to [x]. *)
Definition nearest_integer (x : Q) (n : Z) : Prop :=
  ∀ k : Z, (Qabs (x - inject_Z n) <= Qabs (x - inject_Z k))%Q.

(** A finite float whose integer part fits an [int]. *)
Definition fits_int (f : float64) : Prop :=
  ∃ z, float64_trunc f = Some z ∧ GoInt.in_range z.

(** ** Shapes of responses and effects *)

(** The response written by [http.Error] on a fresh writer: the status,
    the plain-text content type, and the message followed by a line feed
    (character 10). *)
Definition plain_text_error (code : Z) (msg : string) (w : ResponseWriter)
    : Prop :=
  ResponseWriter.Status w = Some code
  ∧ ResponseWriter.Header w !! "Content-Type"
    = Some "text/plain; charset=utf-8"
  ∧ ResponseWriter.Written w = msg +:+ String "010"%char EmptyString.

(** The handler returned, having written that error response. *)
Definition answers_error (code : Z) (msg : string)
    (o : Outcome ResponseWriter) : Prop :=
  ∃ w, o = Returned w ∧ plain_text_error code msg w.


(** A request was sent with method POST: the program builds only one,
    the delivery to the webhook. *)
Definition is_post (ef : Effect) : bool :=
  match ef with
  | Sent q => bool_decide (HttpRequest.Method q = "POST")
  | Logged _ => false
  end.

(** ** Sample inputs *)

(** A library instance whose decoder panics on an empty buffer, as the
    library does, and plays the run [r] on any other; the [String()]
    methods are stand-ins. *)
Definition fixed_run (r : ParserRun) : Demoinfocs :=
  {| Team_String := λ t,
       match t with
       | common.TeamUnassigned => "Unassigned"
       | common.TeamSpectators => "Spectators"
       | common.TeamTerrorists => "Terrorists"
       | common.TeamCounterTerrorists => "CounterTerrorists"
       end;
     Reason_String := λ r, pretty (events.RoundEndReason.code r);
     Equipment_String := λ w, pretty (common.Equipment.EquipmentType w);
     NewParser := λ data,
       match data with
       | [] => Panic
       | _ :: _ => Returned r
       end |}.

(** The first bytes of a replay file. *)
Definition demo_bytes : list Byte.byte := list_byte_of_string "PBDEMS2".

(** The body of a request to [/parse]. *)
Definition parse_body : list Byte.byte :=
  list_byte_of_string
    ("{" +:+ json_string "demoId" +:+ ":" +:+ json_string "demo-1" +:+ ","
     +:+ json_string "filePath" +:+ ":" +:+ json_string "uploads/demo-1.dem"
     +:+ "}").

(** A JSON decoder for the samples: it rejects the empty body. *)
Definition sample_Decode (body : list Byte.byte) : GoResult ParseRequest :=
  match body with
  | [] => Err "EOF"
  | _ :: _ => Ok (ParseRequest.mk "demo-1" "uploads/demo-1.dem")
  end.

Definition at_tick (t : Z) : GameState := GameState.mk t 0 0 0.

Definition sample_header : common.DemoHeader :=
  common.DemoHeader.mk "de_dust2" (S754_zero false) (S754_zero false).

Definition one_round_trace : list (GameState * Event) :=
  [ (at_tick 600, EvOther);
    (at_tick 640, EvRoundStart (events.RoundStart.mk 115 0 "BOMB TARGET"));
    (at_tick 900, EvOther);
    (GameState.mk 1930 1 0 1,
     EvRoundEnd (events.RoundEnd.mk "" (events.RoundEndReason.mk 9)
                   common.TeamCounterTerrorists)) ].

Definition sample_start (t : Z) (played : Z) : GameState * Event :=
  (GameState.mk t 0 0 played, EvRoundStart (events.RoundStart.mk 115 0 "")).

Definition sample_end (t : Z) : GameState * Event :=
  (GameState.mk t 1 0 0,
   EvRoundEnd (events.RoundEnd.mk "" (events.RoundEndReason.mk 8)
                 common.TeamTerrorists)).

Definition sample_kill : events.Kill :=
  events.Kill.mk (Some (common.Equipment.mk 7))
    (Some (common.Player.mk 22 "vee" common.TeamCounterTerrorists))
    (Some (common.Player.mk 11 "kay" common.TeamTerrorists))
    None 0 true.

Definition three_starts : list (GameState * Event) :=
  [ sample_start 10 7; (at_tick 20, EvKill sample_kill);
    sample_start 30 7; sample_start 40 0 ].

Definition assisted_kill : events.Kill :=
  events.Kill.mk (Some (common.Equipment.mk 7))
    (Some (common.Player.mk 22 "vee" common.TeamCounterTerrorists))
    (Some (common.Player.mk 11 "kay" common.TeamTerrorists))
    (Some (common.Player.mk 33 "ace" common.TeamTerrorists))
    0 true.

(** The player 11 again, after changing sides and name. *)
Definition kay_switched : common.Player :=
  common.Player.mk 11 "kay2" common.TeamCounterTerrorists.

Definition switched_kill : events.Kill :=
  events.Kill.mk (Some (common.Equipment.mk 9))
    (Some (common.Player.mk 33 "ace" common.TeamTerrorists))
    (Some kay_switched) None 1 false.

(** A death without killer, by a weapon that belongs to nobody. *)
Definition world_kill : events.Kill :=
  events.Kill.mk (Some (common.Equipment.mk 404))
    (Some (common.Player.mk 22 "vee" common.TeamCounterTerrorists))
    None None 0 false.

(** A death without killer and without weapon. *)
Definition unarmed_kill : events.Kill :=
  events.Kill.mk None
    (Some (common.Player.mk 22 "vee" common.TeamCounterTerrorists))
    None None 0 false.

Definition plain_lib : Demoinfocs :=
  fixed_run (ParserRun.mk [] None sample_header).

Definition one_kill_state : State :=
  @run plain_lib [(at_tick 5, EvKill sample_kill)] (initial "demo-1").

Definition two_kill_state : State :=
  @handle plain_lib one_kill_state (at_tick 9, EvKill assisted_kill).

Definition first_assisted_state : State :=
  @handle plain_lib (initial "demo-1") (at_tick 9, EvKill assisted_kill).

Definition switched_state : State :=
  @run plain_lib
    ([(at_tick 5, EvKill sample_kill)]
     ++ [(at_tick 9, EvKill assisted_kill); sample_start 20 1;
         (at_tick 30, EvKill switched_kill)])
    (initial "demo-1").

(** The binary64 number 127.75. *)
Definition rate_127_75 : float64 := S754_finite false 8989607068696576 (-46).

(** The binary64 number 2700.5. *)
Definition seconds_2700_5 : float64 :=
  S754_finite false 5938462301618176 (-41).

Definition header_127_75 : common.DemoHeader :=
  common.DemoHeader.mk "de_mirage" seconds_2700_5 rate_127_75.

(** A world in which every remote server answers 200 at once, the
    storage with the bytes of a replay, and marshalling succeeds. *)
Definition calm_world : World :=
  mkWorld (λ name, "env:" +:+ name)
    sample_Decode
    (λ _, Ok (list_byte_of_string "{}"))
    (λ _ _, None)
    (λ _, ([], Ok (HttpResponse.mk 200 (demo_bytes, None)))).

(** A world whose storage answers 200 with an empty body. *)
Definition empty_download_world : World :=
  mkWorld (λ name, "env:" +:+ name)
    sample_Decode
    (λ _, Ok (list_byte_of_string "{}"))
    (λ _ _, None)
    (λ _, ([], Ok (HttpResponse.mk 200 ([], None)))).

(** A world whose storage redirects the download once (302) to another
    host and whose webhook redirects the delivery once (307); the second
    server answers 200 in both cases. *)
Definition redirecting_world : World :=
  mkWorld (λ name, "env:" +:+ name)
    sample_Decode
    (λ _, Ok (list_byte_of_string "{}"))
    (λ _ _, None)
    (λ q, if decide (HttpRequest.Method q = "GET")
          then ([Hop.mk Found "https://cdn.example/demo-1.dem" ∅],
                Ok (HttpResponse.mk 200 (demo_bytes, None)))
          else ([Hop.mk TemporaryRedirect "https://hook.example/v2"
                   (HttpRequest.Header q)],
                Ok (HttpResponse.mk 200 ([], None)))).

(** A decoder that fails after having dispatched the events of a round. *)
Definition truncated_lib : Demoinfocs :=
  fixed_run (ParserRun.mk one_round_trace (Some "unexpected EOF")
               sample_header).

(** ** Counting the events of a sequence *)

Definition is_kill (d : GameState * Event) : bool :=
  match d.2 with EvKill _ => true | _ => false end.

Definition kills (es : list (GameState * Event)) : nat :=
  length (filter (λ d, is_kill d = true) es).

Definition ends (es : list (GameState * Event)) : nat :=
  length (filter (λ d, is_round_end d = true) es).

(** A kill whose handler reaches the append: a kill with a weapon. *)
Definition is_recorded (d : GameState * Event) : bool :=
  is_kill d && negb (panics d).

Definition recorded (es : list (GameState * Event)) : nat :=
  length (filter (λ d, is_recorded d = true) es).

(** The event is a kill whose killer, victim or assister (the [role]) is
    present and has the identity [id]. *)
Definition kill_names (role : events.Kill → option common.Player) (id : N)
    (d : GameState * Event) : bool :=
  match d.2 with
  | EvKill e => bool_decide (names (role e) id)
  | _ => false
  end.

Definition times_named (role : events.Kill → option common.Player) (id : N)
    (es : list (GameState * Event)) : nat :=
  length (filter (λ d, kill_names role id d = true) es).

(** The event is a kill that names [id] in some role. *)
Definition refers (id : N) (d : GameState * Event) : bool :=
  kill_names events.Kill.Killer id d
  || kill_names events.Kill.Victim id d
  || kill_names events.Kill.Assister id d.

(** The tick of the last round-start of the sequence, 0 if there is none. *)
Definition last_start_tick (es : list (GameState * Event)) : Z :=
  match list_find (λ d, is_round_start d = true) (reverse es) with
  | Some (_, d) => GameState.IngameTick d.1
  | None => 0
  end.

(** What every accumulator looks like apart from its identity, name and
    counters: a team label out of three, and the metric fields and the
    [Stats] bag as [getOrCreatePlayer] left them. *)
Definition well_labelled (p : Player) : Prop :=
  (Player.Team p = "T" ∨ Player.Team p = "CT" ∨ Player.Team p = "spectator")
  ∧ Player.ADR p = float64_zero
  ∧ Player.HSP p = float64_zero
  ∧ Player.KAST p = float64_zero
  ∧ Player.Rating p = float64_zero
  ∧ Player.Stats p = ∅.

(** A longer sample: two rounds, three kills, a renamed player. *)
Definition match_trace : list (GameState * Event) :=
  [ sample_start 100 0;
    (at_tick 150, EvKill sample_kill);
    (at_tick 180, EvKill assisted_kill);
    sample_end 1380;
    sample_start 1500 1;
    (at_tick 1600, EvKill switched_kill);
    sample_end 2780 ].

Definition match_lib : Demoinfocs :=
  fixed_run (ParserRun.mk match_trace None sample_header).

(** The numbers of a log never decrease and stay between 0 and [top]. *)
Definition never_decrease (ns : list Z) (top : Z) : Prop :=
  ∀ (i j : nat) a b,
    (i ≤ j)%nat → ns !! i = Some a → ns !! j = Some b →
    0 <= a ∧ a <= b ∧ b <= top.

(** The record the round-end handler appends in state [st]. *)
Definition round_record `{Demoinfocs} (st : State) (gs : GameState)
    (e : events.RoundEnd) : Round :=
  Round.mk (currentRound st)
    (GoString (events.RoundEnd.Winner e))
    (GoString (events.RoundEnd.Reason e))
    (GameState.CT_Score gs) (GameState.T_Score gs)
    (GoInt.quot (GoInt.sub (GameState.IngameTick gs) (startTick st)) 128)
    ∅.

(** The record the kill handler appends in state [st] for a kill with
    the weapon [weapon]. *)
Definition kill_record `{Demoinfocs} (st : State) (gs : GameState)
    (e : events.Kill) (weapon : common.Equipment) : GameEvent :=
  GameEvent.mk "kill" (GameState.IngameTick gs) (currentRound st)
    (killEventData e weapon).

(** ** The requests the service sends *)

(** The request [downloadDemo] builds. *)
Definition download_request (W : World) (filePath : string) : HttpRequest :=
  HttpRequest.mk "GET"
    (Getenv W "SUPABASE_URL" +:+ "/storage/v1/object/demos/" +:+ filePath)
    (<["Authorization" := "Bearer " +:+ Getenv W "SUPABASE_SERVICE_ROLE_KEY"]>
       ∅)
    [].

(** The request [sendToWebhook] builds around the marshalled result. *)
Definition webhook_request (W : World) (jsonData : list Byte.byte)
    : HttpRequest :=
  HttpRequest.mk "POST" (Getenv W "WEBHOOK_URL")
    (<["Authorization" := "Bearer " +:+ Getenv W "GO_SERVICE_SECRET"]>
     (<["Content-Type" := "application/json"]> ∅))
    jsonData.

(** The requests among the effects, in the order they were sent. *)
Definition sent (efs : list Effect) : list HttpRequest :=
  omap (λ ef, match ef with Sent q => Some q | Logged _ => None end) efs.

(** A storage that answers 503 with a short text. *)
Definition storage_down : World :=
  mkWorld (λ name, "env:" +:+ name)
    sample_Decode
    (λ _, Ok (list_byte_of_string "{}"))
    (λ _ _, None)
    (λ _, ([], Ok (HttpResponse.mk 503 (list_byte_of_string "busy", None)))).

(** A world whose servers answer 200 to a GET, with the bytes of a
    replay, and 401 with the text [denied] to anything else. *)
Definition webhook_denies : World :=
  mkWorld (λ name, "env:" +:+ name)
    sample_Decode
    (λ _, Ok (list_byte_of_string "{}"))
    (λ _ _, None)
    (λ q, if decide (HttpRequest.Method q = "GET")
          then ([], Ok (HttpResponse.mk 200 (demo_bytes, None)))
          else ([], Ok (HttpResponse.mk 401
                          (list_byte_of_string "denied", None)))).

(** The requests that leave the process during [client.Do(req)]: [req]
    itself, then one request per redirect the client follows. *)
Definition requests_of (W : World) (req : HttpRequest) : list HttpRequest :=
  req :: followed req (client_Do W req).1.

(** A redirect that repeats the method and the body: 307 or 308. *)
Definition repeats (h : Hop) : Prop :=
  Hop.Status h = TemporaryRedirect ∨ Hop.Status h = PermanentRedirect.

(** ** Facts about Go's integer arithmetic *)

Lemma wrap_in_range z : GoInt.in_range z → GoInt.wrap z = z.
Proof.
  unfold GoInt.in_range, GoInt.min_int, GoInt.max_int, GoInt.wrap.
  intros Hz. rewrite Z.mod_small; lia.
Qed.

Lemma wrap_range z : GoInt.in_range (GoInt.wrap z).
Proof.
  unfold GoInt.in_range, GoInt.min_int, GoInt.max_int, GoInt.wrap.
  pose proof (Z.mod_pos_bound (z + 2 ^ 63) (2 ^ 64) ltac:(lia)). lia.
Qed.

Lemma quot_128_in_range z :
  GoInt.in_range z → GoInt.quot z 128 = Z.quot z 128.
Proof.
  intros Hz. unfold GoInt.quot. apply wrap_in_range.
  unfold GoInt.in_range, GoInt.min_int, GoInt.max_int in *.
  destruct (Z.le_gt_cases 0 z) as [Hpos | Hneg].
  - pose proof (Z.quot_pos z 128 Hpos ltac:(lia)).
    pose proof (Z.quot_le_upper_bound z 128 z ltac:(lia) ltac:(lia)). lia.
  - pose proof (Z.quot_opp_l z 128 ltac:(lia)) as Ho.
    pose proof (Z.quot_pos (- z) 128 ltac:(lia) ltac:(lia)).
    pose proof (Z.quot_le_upper_bound (- z) 128 (- z) ltac:(lia) ltac:(lia)).
    lia.
Qed.

(** Truncation toward zero, spelled out: the quotient has the sign of the
    dividend and its multiple is the closest one not beyond the dividend. *)
Lemma quot_128_truncates z :
  let q := Z.quot z 128 in
  Z.abs (128 * q) <= Z.abs z < Z.abs (128 * q) + 128 ∧ 0 <= q * z.
Proof.
  intros q. subst q.
  pose proof (Z.quot_rem' z 128) as Hqr.
  destruct (Z.le_gt_cases 0 z) as [Hpos | Hneg].
  - pose proof (Z.rem_bound_pos z 128 Hpos ltac:(lia)).
    pose proof (Z.quot_pos z 128 Hpos ltac:(lia)). split; [lia | nia].
  - pose proof (Z.rem_bound_abs z 128 ltac:(lia)).
    pose proof (Z.rem_sign_mul z 128 ltac:(lia)).
    assert (Z.rem z 128 <= 0) by nia.
    assert (Z.quot z 128 <= 0) by lia.
    split; [lia | nia].
Qed.

Section EngineFacts.

Context `{Demoinfocs}.

Lemma run_app es1 es2 st : run (es1 ++ es2) st = run es2 (run es1 st).
Proof. apply fold_left_app. Qed.

Lemma run_cons d es st : run (d :: es) st = run es (handle st d).
Proof. reflexivity. Qed.

Lemma run_snoc es d st : run (es ++ [d]) st = handle (run es st) d.
Proof. by rewrite run_app. Qed.

Lemma count_control f x st :
  parsed (count f x st) = parsed st
  ∧ currentRound (count f x st) = currentRound st
  ∧ startTick (count f x st) = startTick st.
Proof.
  unfold count. destruct x as [p|]; [|done].
  by destruct (getOrCreatePlayer _ _ _) as [[h stats] ptr].
Qed.

Lemma counted_control e st :
  parsed (counted e st) = parsed st
  ∧ currentRound (counted e st) = currentRound st
  ∧ startTick (counted e st) = startTick st.
Proof.
  unfold counted.
  destruct (count_control Player.incAssists (events.Kill.Assister e)
              (count Player.incDeaths (events.Kill.Victim e)
                 (count Player.incKills (events.Kill.Killer e) st)))
    as (-> & -> & ->).
  destruct (count_control Player.incDeaths (events.Kill.Victim e)
              (count Player.incKills (events.Kill.Killer e) st))
    as (-> & -> & ->).
  apply count_control.
Qed.

(** The kill handler in two steps: the counters, then the record if the
    weapon is there. *)
Lemma onKill_counted gs e st :
  onKill gs e st
  = match events.Kill.Weapon e with
    | None => counted e st
    | Some weapon =>
        mkState
          (set_Events
             (ParsedData.Events (parsed (counted e st))
              ++ [GameEvent.mk "kill" (GameState.IngameTick gs)
                    (currentRound (counted e st)) (killEventData e weapon)])
             (parsed (counted e st)))
          (heap (counted e st)) (playerStats (counted e st))
          (currentRound (counted e st)) (startTick (counted e st))
    end.
Proof. done. Qed.

Lemma onKill_control gs e st :
  currentRound (onKill gs e st) = currentRound st
  ∧ startTick (onKill gs e st) = startTick st
  ∧ ParsedData.Rounds (parsed (onKill gs e st)) = ParsedData.Rounds (parsed st).
Proof.
  rewrite onKill_counted.
  destruct (counted_control e st) as (Hp & Hc & Ht).
  destruct (events.Kill.Weapon e) as [weapon|];
    cbn [currentRound startTick parsed set_Events ParsedData.Rounds];
    by rewrite ?Hp, ?Hc, ?Ht.
Qed.

Lemma onKill_events gs e st :
  ParsedData.Events (parsed (onKill gs e st))
  = ParsedData.Events (parsed st)
    ++ match events.Kill.Weapon e with
       | Some weapon =>
           [GameEvent.mk "kill" (GameState.IngameTick gs) (currentRound st)
              (killEventData e weapon)]
       | None => []
       end.
Proof.
  rewrite onKill_counted.
  destruct (counted_control e st) as (Hp & Hc & Ht).
  destruct (events.Kill.Weapon e) as [weapon|];
    cbn [currentRound startTick parsed set_Events ParsedData.Events];
    rewrite ?Hp, ?Hc; [done|by rewrite app_nil_r].
Qed.

(** Only a round-start changes the counter or the start tick. *)
Lemma handle_not_start st d :
  is_round_start d = false →
  currentRound (handle st d) = currentRound st
  ∧ startTick (handle st d) = startTick st.
Proof.
  destruct d as [gs [e|e|e|]]; unfold is_round_start, handle;
    cbn [fst snd]; try done.
  intros _. by destruct (onKill_control gs e st) as (-> & -> & _).
Qed.

Lemma handle_not_end st d :
  is_round_end d = false →
  ParsedData.Rounds (parsed (handle st d)) = ParsedData.Rounds (parsed st).
Proof.
  destruct d as [gs [e|e|e|]]; unfold is_round_end, handle;
    cbn [fst snd]; try done.
  intros _. by destruct (onKill_control gs e st) as (_ & _ & ->).
Qed.

Lemma quiet_split d :
  quiet d = true → is_round_start d = false ∧ is_round_end d = false.
Proof. unfold quiet. by destruct (is_round_start d), (is_round_end d). Qed.

Lemma run_quiet es st :
  forallb quiet es = true →
  currentRound (run es st) = currentRound st
  ∧ startTick (run es st) = startTick st
  ∧ ParsedData.Rounds (parsed (run es st)) = ParsedData.Rounds (parsed st).
Proof.
  revert st. induction es as [|d es IH]; intros st Hq; [done|].
  cbn in Hq. apply andb_prop in Hq as [Hd Hes].
  apply quiet_split in Hd as [Hs He].
  rewrite run_cons. destruct (IH (handle st d) Hes) as (-> & -> & ->).
  destruct (handle_not_start st d Hs) as [-> ->].
  by rewrite (handle_not_end st d He).
Qed.

Lemma run_no_end es st :
  forallb (λ d, negb (is_round_end d)) es = true →
  ParsedData.Rounds (parsed (run es st)) = ParsedData.Rounds (parsed st).
Proof.
  revert st. induction es as [|d es IH]; intros st Hq; [done|].
  cbn in Hq. apply andb_prop in Hq as [Hd Hes].
  rewrite run_cons, (IH _ Hes). apply handle_not_end.
  by destruct (is_round_end d).
Qed.

Lemma run_no_start es st :
  forallb (λ d, negb (is_round_start d)) es = true →
  currentRound (run es st) = currentRound st
  ∧ startTick (run es st) = startTick st.
Proof.
  revert st. induction es as [|d es IH]; intros st Hq; [done|].
  cbn in Hq. apply andb_prop in Hq as [Hd Hes].
  rewrite run_cons. destruct (IH (handle st d) Hes) as [-> ->].
  apply handle_not_start. by destruct (is_round_start d).
Qed.

Lemma starts_cons d es :
  starts (d :: es) = (if is_round_start d then S (starts es) else starts es).
Proof.
  unfold starts. rewrite filter_cons.
  destruct (is_round_start d); by case_decide.
Qed.

(** The counter is the number of round-starts, as long as it fits. *)
Lemma run_counter es st :
  0 <= currentRound st →
  currentRound st + Z.of_nat (starts es) <= GoInt.max_int →
  currentRound (run es st) = currentRound st + Z.of_nat (starts es).
Proof.
  revert st. induction es as [|d es IH]; intros st H0 Hmax.
  { cbn. unfold starts; cbn. lia. }
  rewrite run_cons. rewrite starts_cons in *.
  destruct (is_round_start d) eqn:Hd.
  - assert (currentRound (handle st d) = currentRound st + 1) as Hstep.
    { destruct d as [gs [e|e|e|]]; try discriminate Hd. cbn.
      unfold GoInt.add. apply wrap_in_range.
      unfold GoInt.in_range, GoInt.min_int, GoInt.max_int in *. lia. }
    rewrite IH; rewrite Hstep; lia.
  - destruct (handle_not_start st d Hd) as [Hstep _].
    rewrite IH; rewrite Hstep; lia.
Qed.

(** The counter depends on the types of the events only. *)
Lemma run_counter_kind es1 : ∀ es2 st1 st2,
  map kind es1 = map kind es2 →
  currentRound st1 = currentRound st2 →
  currentRound (run es1 st1) = currentRound (run es2 st2).
Proof.
  induction es1 as [|d1 es1 IH]; intros [|d2 es2] st1 st2 Hk Hc;
    try discriminate Hk; [done|].
  injection Hk as Hd Hk. rewrite !run_cons. apply IH; [done|].
  destruct d1 as [g1 [e1|e1|e1|]], d2 as [g2 [e2|e2|e2|]];
    try discriminate Hd; unfold handle; cbn [fst snd]; try done.
  - cbn. by rewrite Hc.
  - destruct (onKill_control g1 e1 st1) as (-> & _).
    by destruct (onKill_control g2 e2 st2) as (-> & _).
Qed.

Lemma handle_round_start st gs e :
  currentRound (handle st (gs, EvRoundStart e)) = GoInt.add (currentRound st) 1
  ∧ startTick (handle st (gs, EvRoundStart e)) = GameState.IngameTick gs
  ∧ ParsedData.Rounds (parsed (handle st (gs, EvRoundStart e)))
    = ParsedData.Rounds (parsed st).
Proof. done. Qed.

Lemma handle_round_end st gs e :
  currentRound (handle st (gs, EvRoundEnd e)) = currentRound st
  ∧ startTick (handle st (gs, EvRoundEnd e)) = startTick st
  ∧ ParsedData.Rounds (parsed (handle st (gs, EvRoundEnd e)))
    = ParsedData.Rounds (parsed st)
      ++ [Round.mk (currentRound st)
            (GoString (events.RoundEnd.Winner e))
            (GoString (events.RoundEnd.Reason e))
            (GameState.CT_Score gs) (GameState.T_Score gs)
            (GoInt.quot
               (GoInt.sub (GameState.IngameTick gs) (startTick st)) 128)
            ∅].
Proof. done. Qed.

(** One round-start, later one round-end, nothing else that touches the
    rounds: exactly one record is appended. *)
Lemma run_start_end pre gs1 e1 mid gs2 e2 post st :
  forallb quiet pre = true →
  forallb quiet mid = true →
  forallb quiet post = true →
  ParsedData.Rounds
    (parsed (run (pre ++ (gs1, EvRoundStart e1)
                      :: mid ++ (gs2, EvRoundEnd e2) :: post) st))
  = ParsedData.Rounds (parsed st)
    ++ [Round.mk (GoInt.add (currentRound st) 1)
          (GoString (events.RoundEnd.Winner e2))
          (GoString (events.RoundEnd.Reason e2))
          (GameState.CT_Score gs2) (GameState.T_Score gs2)
          (GoInt.quot
             (GoInt.sub (GameState.IngameTick gs2)
                (GameState.IngameTick gs1)) 128)
          ∅].
Proof.
  intros Hpre Hmid Hpost.
  rewrite run_app, run_cons, run_app, run_cons.
  destruct (run_quiet pre st Hpre) as (Hc0 & _ & Hr0).
  remember (run pre st) as s0 eqn:E0.
  destruct (handle_round_start s0 gs1 e1) as (Hc1 & Ht1 & Hr1).
  remember (handle s0 (gs1, EvRoundStart e1)) as s1 eqn:E1.
  destruct (run_quiet mid s1 Hmid) as (Hc2 & Ht2 & Hr2).
  remember (run mid s1) as s2 eqn:E2.
  destruct (handle_round_end s2 gs2 e2) as (_ & _ & Hr3).
  remember (handle s2 (gs2, EvRoundEnd e2)) as s3 eqn:E3.
  destruct (run_quiet post s3 Hpost) as (_ & _ & ->).
  rewrite Hr3, Hr2, Hr1, Hr0, Hc2, Hc1, Hc0, Ht2, Ht1. reflexivity.
Qed.

End EngineFacts.

(** ** Rounds and the round counter *)

(** C1.  When the decoder dispatches exactly one round-start and, later,
    exactly one round-end (kills and unhandled events may surround them)
    and then ends cleanly, no handler having panicked, the result has
    exactly one round record; its number is 1 and its duration is Go's
    [(end_tick - start_tick) / 128].  The divisor is the constant 128
    whatever the header says, and when the tick difference fits an [int]
    the duration is the mathematical quotient truncated toward zero. *)
Theorem one_round_duration `{Demoinfocs} demoID data p pre gs1 e1 mid gs2 e2
    post :
  NewParser data = Returned p →
  ParserRun.dispatched p
    = pre ++ (gs1, EvRoundStart e1) :: mid ++ (gs2, EvRoundEnd e2) :: post →
  ParserRun.ParseToEnd p = None →
  existsb panics (ParserRun.dispatched p) = false →
  forallb quiet pre = true →
  forallb quiet mid = true →
  forallb quiet post = true →
  let delta := GameState.IngameTick gs2 - GameState.IngameTick gs1 in
  ∃ d r,
    parseDemo demoID data = Returned (Ok d)
    ∧ ParsedData.Rounds d = [r]
    ∧ Round.RoundNumber r = 1
    ∧ Round.DurationSeconds r
      = GoInt.quot
          (GoInt.sub (GameState.IngameTick gs2) (GameState.IngameTick gs1))
          128
    ∧ (GoInt.in_range delta →
       Round.DurationSeconds r = Z.quot delta 128
       ∧ Z.abs (128 * Round.DurationSeconds r) <= Z.abs delta
           < Z.abs (128 * Round.DurationSeconds r) + 128
       ∧ 0 <= Round.DurationSeconds r * delta).
Proof.
  intros Hnew Htrace Hend Hcalm Hpre Hmid Hpost delta.
  unfold parseDemo. rewrite Hnew, Hcalm, Hend, Htrace.
  eexists _, _. split; [reflexivity|].
  cbn [finish ParsedData.Rounds].
  rewrite (run_start_end pre gs1 e1 mid gs2 e2 post) by done.
  cbn [initial parsed ParsedData.Rounds currentRound app
       Round.RoundNumber Round.DurationSeconds].
  split; [reflexivity|]. split; [reflexivity|]. split; [reflexivity|].
  intros Hrange.
  assert (GoInt.sub (GameState.IngameTick gs2) (GameState.IngameTick gs1)
          = delta) as ->.
  { unfold GoInt.sub. by apply wrap_in_range. }
  rewrite quot_128_in_range by done.
  split; [reflexivity|]. apply quot_128_truncates.
Qed.

Lemma one_round_duration_witness :
  ∃ d r,
    @parseDemo (fixed_run (ParserRun.mk one_round_trace None sample_header))
      "demo-1" demo_bytes = Returned (Ok d)
    ∧ ParsedData.Rounds d = [r]
    ∧ Round.RoundNumber r = 1
    ∧ Round.DurationSeconds r = 10.
Proof.
  destruct (@one_round_duration
              (fixed_run (ParserRun.mk one_round_trace None sample_header))
              "demo-1" demo_bytes
              (ParserRun.mk one_round_trace None sample_header)
              [(at_tick 600, EvOther)]
              (at_tick 640) (events.RoundStart.mk 115 0 "BOMB TARGET")
              [(at_tick 900, EvOther)]
              (GameState.mk 1930 1 0 1)
              (events.RoundEnd.mk "" (events.RoundEndReason.mk 9)
                 common.TeamCounterTerrorists)
              [] eq_refl eq_refl eq_refl eq_refl eq_refl eq_refl eq_refl)
    as (d & r & Hd & Hr & Hn & Hq & _).
  exists d, r. repeat split; [exact Hd | exact Hr | exact Hn |].
  rewrite Hq. reflexivity.
Defined.

(** C3.  After the events of a sequence with [N] round-starts and no
    round-end, the running counter is [N] (while [N] fits an [int]) and no
    round has been recorded.  Every round-start adds one whatever it
    carries, no other event changes the counter, and the counter depends
    on the types of the events only: not on their payloads nor on the game
    state, which holds the decoder's own round number. *)
Theorem round_counter_counts_starts `{Demoinfocs} demoID :
  (∀ (N : nat) es,
     starts es = N →
     forallb (λ d, negb (is_round_end d)) es = true →
     Z.of_nat N <= GoInt.max_int →
     currentRound (run es (initial demoID)) = Z.of_nat N
     ∧ ParsedData.Rounds (parsed (run es (initial demoID))) = [])
  ∧ (∀ st gs e,
       currentRound (handle st (gs, EvRoundStart e))
       = GoInt.add (currentRound st) 1)
  ∧ (∀ st d,
       is_round_start d = false →
       currentRound (handle st d) = currentRound st)
  ∧ (∀ es1 es2,
       map kind es1 = map kind es2 →
       currentRound (run es1 (initial demoID))
       = currentRound (run es2 (initial demoID))).
Proof.
  repeat split.
  - rewrite run_counter; cbn [initial currentRound]; lia.
  - by rewrite run_no_end.
  - intros st d Hd. by destruct (handle_not_start st d Hd).
  - intros es1 es2 Hk. by apply run_counter_kind.
Qed.

Lemma round_counter_counts_starts_witness :
  currentRound
    (@run (fixed_run (ParserRun.mk [] None sample_header)) three_starts
       (initial "demo-1")) = 3
  ∧ ParsedData.Rounds
      (parsed
         (@run (fixed_run (ParserRun.mk [] None sample_header)) three_starts
            (initial "demo-1"))) = [].
Proof.
  pose proof (@round_counter_counts_starts
                (fixed_run (ParserRun.mk [] None sample_header)) "demo-1")
    as [Hcount _].
  apply (Hcount 3%nat three_starts); [reflexivity | reflexivity |].
  unfold GoInt.max_int. lia.
Defined.

(** C6.  Before any round-start the counter and the start tick are 0.  A
    kill arriving then is recorded with round number 0: its handler
    appends exactly one record, tagged kill and numbered 0, unless the
    kill has no weapon, in which case the handler panics and appends
    nothing.  A round-end arriving then still appends a round record,
    numbered 0, whose duration is computed from start tick 0. *)
Theorem before_first_round_start `{Demoinfocs} demoID es gs :
  forallb (λ d, negb (is_round_start d)) es = true →
  let st := run es (initial demoID) in
  currentRound st = 0
  ∧ startTick st = 0
  ∧ (∀ e,
       match events.Kill.Weapon e with
       | Some _ =>
           panics (gs, EvKill e) = false
           ∧ ∃ ev,
               ParsedData.Events (parsed (handle st (gs, EvKill e)))
               = ParsedData.Events (parsed st) ++ [ev]
               ∧ GameEvent.EventType ev = "kill"
               ∧ GameEvent.RoundNumber ev = 0
       | None =>
           panics (gs, EvKill e) = true
           ∧ ParsedData.Events (parsed (handle st (gs, EvKill e)))
             = ParsedData.Events (parsed st)
       end)
  ∧ (∀ e, ∃ r,
       ParsedData.Rounds (parsed (handle st (gs, EvRoundEnd e)))
       = ParsedData.Rounds (parsed st) ++ [r]
       ∧ Round.RoundNumber r = 0
       ∧ Round.DurationSeconds r
         = GoInt.quot (GoInt.sub (GameState.IngameTick gs) 0) 128
       ∧ (GoInt.in_range (GameState.IngameTick gs) →
          Round.DurationSeconds r = Z.quot (GameState.IngameTick gs) 128)).
Proof.
  intros Hes st.
  destruct (run_no_start es (initial demoID) Hes) as [Hc Ht].
  cbn [initial currentRound startTick] in Hc, Ht. fold st in Hc, Ht.
  split; [done|]. split; [done|]. split.
  - intros e. unfold handle, panics; cbn [fst snd].
    rewrite onKill_events.
    destruct (events.Kill.Weapon e) as [weapon|].
    + split; [done|]. eexists. split; [reflexivity|]. by rewrite Hc.
    + split; [done|]. by rewrite app_nil_r.
  - intros e. eexists.
    destruct (handle_round_end st gs e) as (_ & _ & ->).
    split; [reflexivity|]. rewrite Hc, Ht.
    cbn [Round.RoundNumber Round.DurationSeconds].
    split; [done|]. split; [done|]. intros Hr.
    unfold GoInt.sub. rewrite Z.sub_0_r, (wrap_in_range _ Hr).
    by apply quot_128_in_range.
Qed.

Lemma before_first_round_start_witness :
  (∃ ev,
     ParsedData.Events
       (parsed
          (@run plain_lib [(at_tick 3, EvOther); (at_tick 5, EvKill sample_kill)]
             (initial "demo-1"))) = [ev]
     ∧ GameEvent.RoundNumber ev = 0)
  ∧ ParsedData.Events
      (parsed
         (@run plain_lib [(at_tick 3, EvOther); (at_tick 5, EvKill unarmed_kill)]
            (initial "demo-1"))) = []
  ∧ ∃ r,
      ParsedData.Rounds
        (parsed
           (@run plain_lib [(at_tick 5, EvKill sample_kill); sample_end 1290]
              (initial "demo-1"))) = [r]
      ∧ Round.RoundNumber r = 0
      ∧ Round.DurationSeconds r = 10.
Proof.
  destruct (@before_first_round_start plain_lib "demo-1"
              [(at_tick 3, EvOther)] (at_tick 5) eq_refl)
    as (_ & _ & Hkill & _).
  destruct (Hkill sample_kill) as (_ & ev & Hev & _ & Hn).
  destruct (Hkill unarmed_kill) as (_ & Hnone).
  destruct (@before_first_round_start plain_lib "demo-1"
              [(at_tick 5, EvKill sample_kill)] (sample_end 1290).1 eq_refl)
    as (_ & _ & _ & Hend).
  destruct (Hend (events.RoundEnd.mk "" (events.RoundEndReason.mk 8)
                    common.TeamTerrorists)) as (r & Hr & Hn' & Hq & _).
  split; [exists ev; split; [exact Hev | exact Hn]|].
  split; [exact Hnone|].
  exists r. split; [exact Hr|]. split; [exact Hn'|].
  rewrite Hq. reflexivity.
Defined.

(** C10.  A round-end leaves the running counter and the stored start
    tick as they were.  Hence two round-ends with no round-start between
    them append two records with the same round number, and both durations
    are measured from the same start tick. *)
Theorem round_end_keeps_counter_and_start `{Demoinfocs} st gs1 e1 mid gs2 e2 :
  forallb quiet mid = true →
  currentRound (handle st (gs1, EvRoundEnd e1)) = currentRound st
  ∧ startTick (handle st (gs1, EvRoundEnd e1)) = startTick st
  ∧ ∃ r1 r2,
      ParsedData.Rounds
        (parsed (run ((gs1, EvRoundEnd e1) :: mid ++ [(gs2, EvRoundEnd e2)])
                   st))
      = ParsedData.Rounds (parsed st) ++ [r1; r2]
      ∧ Round.RoundNumber r1 = currentRound st
      ∧ Round.RoundNumber r2 = currentRound st
      ∧ Round.DurationSeconds r1
        = GoInt.quot (GoInt.sub (GameState.IngameTick gs1) (startTick st)) 128
      ∧ Round.DurationSeconds r2
        = GoInt.quot (GoInt.sub (GameState.IngameTick gs2) (startTick st)) 128.
Proof.
  intros Hmid.
  destruct (handle_round_end st gs1 e1) as (Hc1 & Ht1 & Hr1).
  split; [done|]. split; [done|].
  rewrite run_cons, run_snoc.
  remember (handle st (gs1, EvRoundEnd e1)) as s1 eqn:E1.
  destruct (run_quiet mid s1 Hmid) as (Hc2 & Ht2 & Hr2).
  remember (run mid s1) as s2 eqn:E2.
  destruct (handle_round_end s2 gs2 e2) as (_ & _ & ->).
  rewrite Hr2, Hr1, Hc2, Hc1, Ht2, Ht1, <- app_assoc.
  eexists _, _. split; [reflexivity|]. done.
Qed.

Lemma round_end_keeps_counter_and_start_witness :
  ∃ r1 r2,
    ParsedData.Rounds
      (parsed
         (@run (fixed_run (ParserRun.mk [] None sample_header))
            [sample_start 640 0; sample_end 1930;
             (at_tick 2000, EvKill sample_kill); sample_end 3200]
            (initial "demo-1"))) = [r1; r2]
    ∧ Round.RoundNumber r1 = 1 ∧ Round.RoundNumber r2 = 1
    ∧ Round.DurationSeconds r1 = 10 ∧ Round.DurationSeconds r2 = 20.
Proof.
  destruct (@round_end_keeps_counter_and_start
              (fixed_run (ParserRun.mk [] None sample_header))
              (@run (fixed_run (ParserRun.mk [] None sample_header))
                 [sample_start 640 0] (initial "demo-1"))
              (sample_end 1930).1
              (events.RoundEnd.mk "" (events.RoundEndReason.mk 8)
                 common.TeamTerrorists)
              [(at_tick 2000, EvKill sample_kill)]
              (sample_end 3200).1
              (events.RoundEnd.mk "" (events.RoundEndReason.mk 8)
                 common.TeamTerrorists)
              eq_refl)
    as (_ & _ & r1 & r2 & Hr & Hn1 & Hn2 & Hd1 & Hd2).
  exists r1, r2. split; [exact Hr|].
  rewrite Hn1, Hn2, Hd1, Hd2. repeat split; reflexivity.
Defined.

(** ** The store of accumulators *)

Lemma Sprintf_d_inj n1 n2 : Sprintf_d n1 = Sprintf_d n2 → n1 = n2.
Proof. unfold Sprintf_d. apply (inj pretty). Qed.

Lemma store_ok_inj h stats id1 id2 l :
  store_ok h stats → stats !! id1 = Some l → stats !! id2 = Some l → id1 = id2.
Proof.
  intros [Hpts _] H1 H2.
  destruct (Hpts _ _ H1) as (p1 & Hp1 & Hs1).
  destruct (Hpts _ _ H2) as (p2 & Hp2 & Hs2).
  apply Sprintf_d_inj. congruence.
Qed.

Lemma getOrCreatePlayer_Some h stats p :
  ∃ l, (getOrCreatePlayer h stats (Some p)).2 = Some l.
Proof.
  unfold getOrCreatePlayer.
  destruct (stats !! common.Player.SteamID64 p); eauto.
Qed.

(** What a guarded block of the kill handler does to the store. *)
Lemma count_spec f p st :
  (∃ l, playerStats st !! common.Player.SteamID64 p = Some l
        ∧ heap (count f (Some p) st) = alter f l (heap st)
        ∧ playerStats (count f (Some p) st) = playerStats st)
  ∨ (playerStats st !! common.Player.SteamID64 p = None
     ∧ heap (count f (Some p) st) = heap st ++ [f (fresh_accumulator p)]
     ∧ playerStats (count f (Some p) st)
       = <[common.Player.SteamID64 p := length (heap st)]> (playerStats st)).
Proof.
  unfold count, getOrCreatePlayer.
  destruct (playerStats st !! common.Player.SteamID64 p) as [l|] eqn:Hl.
  - left. exists l. done.
  - right. split; [done|]. split; [|done].
    cbn [heap bump].
    rewrite <- (Nat.add_0_r (length (heap st))) at 1.
    by rewrite alter_app_r.
Qed.

Lemma count_store_ok f x st :
  keeps_labels f →
  store_ok (heap st) (playerStats st) →
  store_ok (heap (count f x st)) (playerStats (count f x st)).
Proof.
  intros Hf Hok. destruct x as [p|]; [|done].
  destruct Hok as [Hpts Hown].
  destruct (count_spec f p st) as [(l & Hl & -> & ->) | (Hnone & -> & ->)].
  - split.
    + intros id l0 Hid. destruct (Hpts _ _ Hid) as (q & Hq & Hs).
      destruct (decide (l = l0)) as [->|Hne].
      * exists (f q). rewrite list_lookup_alter_eq, Hq. split; [done|].
        destruct (Hf q) as (-> & _). done.
      * exists q. by rewrite list_lookup_alter_ne.
    + intros l0 q Hq. destruct (decide (l = l0)) as [->|Hne].
      * by exists (common.Player.SteamID64 p).
      * rewrite list_lookup_alter_ne in Hq by done. eauto.
  - split.
    + intros id l0 Hid.
      destruct (decide (common.Player.SteamID64 p = id)) as [<-|Hne].
      * rewrite lookup_insert_eq in Hid. injection Hid as <-.
        exists (f (fresh_accumulator p)).
        rewrite lookup_app_r, Nat.sub_diag by lia. split; [done|].
        destruct (Hf (fresh_accumulator p)) as (-> & _). done.
      * rewrite lookup_insert_ne in Hid by done.
        destruct (Hpts _ _ Hid) as (q & Hq & Hs). exists q.
        split; [|done]. by apply lookup_app_l_Some.
    + intros l0 q Hq.
      destruct (decide (l0 = length (heap st))) as [->|Hne].
      * exists (common.Player.SteamID64 p). apply lookup_insert_eq.
      * apply lookup_lt_Some in Hq as Hlt. rewrite length_app in Hlt.
        cbn in Hlt. rewrite lookup_app_l in Hq by lia.
        destruct (Hown _ _ Hq) as (id & Hid). exists id.
        rewrite lookup_insert_ne; [done|]. congruence.
Qed.

(** After a guarded block, the accumulator of the referenced identity is
    the updated one (created first if it was missing); the others are as
    they were. *)
Lemma acc_count f p st id :
  store_ok (heap st) (playerStats st) →
  acc (count f (Some p) st) id
  = if decide (id = common.Player.SteamID64 p)
    then Some (f (default (fresh_accumulator p) (acc st id)))
    else acc st id.
Proof.
  intros Hok. pose proof Hok as [Hpts Hown]. unfold acc.
  destruct (count_spec f p st) as [(l & Hl & -> & ->) | (Hnone & -> & ->)].
  - case_decide as Hid.
    + subst id. rewrite Hl. cbn.
      destruct (Hpts _ _ Hl) as (q & Hq & _).
      by rewrite list_lookup_alter_eq, Hq.
    + destruct (playerStats st !! id) as [l0|] eqn:Hl0; [|done]. cbn.
      apply list_lookup_alter_ne. intros ->.
      apply Hid. by eapply store_ok_inj.
  - case_decide as Hid.
    + subst id. rewrite lookup_insert_eq, Hnone. cbn.
      by rewrite lookup_app_r, Nat.sub_diag by lia.
    + rewrite lookup_insert_ne by done.
      destruct (playerStats st !! id) as [l0|] eqn:Hl0; [|done]. cbn.
      destruct (Hpts _ _ Hl0) as (q & Hq & _).
      rewrite Hq. by apply lookup_app_l_Some.
Qed.

Lemma acc_count_None f st id : acc (count f None st) id = acc st id.
Proof. done. Qed.

Lemma incKills_labels : keeps_labels Player.incKills.
Proof. by intros []. Qed.
Lemma incDeaths_labels : keeps_labels Player.incDeaths.
Proof. by intros []. Qed.
Lemma incAssists_labels : keeps_labels Player.incAssists.
Proof. by intros []. Qed.

Section StoreFacts.

Context `{Demoinfocs}.

Lemma store_ok_initial demoID :
  store_ok (heap (initial demoID)) (playerStats (initial demoID)).
Proof.
  split.
  - intros id l Hl. cbn in Hl. by rewrite lookup_empty in Hl.
  - intros l p Hl. by destruct l.
Qed.

Lemma onKill_store gs e st :
  heap (onKill gs e st) = heap (counted e st)
  ∧ playerStats (onKill gs e st) = playerStats (counted e st).
Proof. rewrite onKill_counted. by destruct (events.Kill.Weapon e). Qed.

Lemma acc_onKill gs e st id : acc (onKill gs e st) id = acc (counted e st) id.
Proof. unfold acc. by destruct (onKill_store gs e st) as [-> ->]. Qed.

Lemma acc_handle_kill st gs e id :
  acc (handle st (gs, EvKill e)) id = acc (counted e st) id.
Proof. apply acc_onKill. Qed.

Lemma counted_store_ok e st :
  store_ok (heap st) (playerStats st) →
  store_ok (heap (counted e st)) (playerStats (counted e st)).
Proof.
  intros Hok. unfold counted.
  repeat apply count_store_ok;
    auto using incKills_labels, incDeaths_labels, incAssists_labels.
Qed.

Lemma handle_store_ok st d :
  store_ok (heap st) (playerStats st) →
  store_ok (heap (handle st d)) (playerStats (handle st d)).
Proof.
  intros Hok. destruct d as [gs [e|e|e|]]; unfold handle; cbn [fst snd];
    try done.
  destruct (onKill_store gs e st) as [-> ->]. by apply counted_store_ok.
Qed.

Lemma run_store_ok es st :
  store_ok (heap st) (playerStats st) →
  store_ok (heap (run es st)) (playerStats (run es st)).
Proof.
  revert st. induction es as [|d es IH]; intros st Hok; [done|].
  rewrite run_cons. apply IH. by apply handle_store_ok.
Qed.

Lemma reachable_store_ok demoID es :
  store_ok (heap (run es (initial demoID)))
    (playerStats (run es (initial demoID))).
Proof. apply run_store_ok, store_ok_initial. Qed.

(** *** One counter through one guarded block *)

Lemma field_count_keep (g : Player → Z) f x st id :
  (∀ p, g (fresh_accumulator p) = 0) →
  (∀ q, g (f q) = g q) →
  store_ok (heap st) (playerStats st) →
  from_option g 0 (acc (count f x st) id) = from_option g 0 (acc st id).
Proof.
  intros Hfresh Hf Hok. destruct x as [p|]; [|done].
  rewrite acc_count by done. case_decide; [|done]. cbn. rewrite Hf.
  destruct (acc st id); cbn; [done|apply Hfresh].
Qed.

Lemma field_count_inc (g : Player → Z) f p st id :
  (∀ p, g (fresh_accumulator p) = 0) →
  (∀ q, g (f q) = GoInt.add (g q) 1) →
  store_ok (heap st) (playerStats st) →
  from_option g 0 (acc (count f (Some p) st) id)
  = if decide (id = common.Player.SteamID64 p)
    then GoInt.add (from_option g 0 (acc st id)) 1
    else from_option g 0 (acc st id).
Proof.
  intros Hfresh Hf Hok. rewrite acc_count by done.
  case_decide; [|done]. cbn. rewrite Hf.
  destruct (acc st id); cbn; [done|by rewrite Hfresh].
Qed.

(** *** Names and teams are fixed at creation *)

Lemma count_keeps_entry f x st id q :
  keeps_labels f →
  store_ok (heap st) (playerStats st) →
  acc st id = Some q →
  playerStats (count f x st) !! id = playerStats st !! id
  ∧ ∃ q', acc (count f x st) id = Some q'
          ∧ Player.SteamID q' = Player.SteamID q
          ∧ Player.Name q' = Player.Name q
          ∧ Player.Team q' = Player.Team q.
Proof.
  intros Hf Hok Hq. destruct x as [p|]; [|by split; [|exists q]].
  split.
  - destruct (count_spec f p st) as [(l & Hl & _ & ->) | (Hnone & _ & ->)];
      [done|].
    rewrite lookup_insert_ne; [done|]. intros <-.
    unfold acc in Hq. by rewrite Hnone in Hq.
  - rewrite acc_count, Hq by done. case_decide; cbn; [|by exists q].
    exists (f q). split; [done|]. apply Hf.
Qed.

Lemma counted_keeps_entry e st id q :
  store_ok (heap st) (playerStats st) →
  acc st id = Some q →
  playerStats (counted e st) !! id = playerStats st !! id
  ∧ ∃ q', acc (counted e st) id = Some q'
          ∧ Player.SteamID q' = Player.SteamID q
          ∧ Player.Name q' = Player.Name q
          ∧ Player.Team q' = Player.Team q.
Proof.
  intros Hok Hq. unfold counted.
  destruct (count_keeps_entry Player.incKills (events.Kill.Killer e) st id q
              incKills_labels Hok Hq) as (Hp1 & q1 & Hq1 & Hs1 & Hn1 & Ht1).
  pose proof (count_store_ok Player.incKills (events.Kill.Killer e) st
                incKills_labels Hok) as Hok1.
  destruct (count_keeps_entry Player.incDeaths (events.Kill.Victim e) _ id q1
              incDeaths_labels Hok1 Hq1) as (Hp2 & q2 & Hq2 & Hs2 & Hn2 & Ht2).
  pose proof (count_store_ok Player.incDeaths (events.Kill.Victim e) _
                incDeaths_labels Hok1) as Hok2.
  destruct (count_keeps_entry Player.incAssists (events.Kill.Assister e) _ id
              q2 incAssists_labels Hok2 Hq2)
    as (Hp3 & q3 & Hq3 & Hs3 & Hn3 & Ht3).
  split; [congruence|]. exists q3. repeat split; congruence.
Qed.

Lemma handle_keeps_entry st d id q :
  store_ok (heap st) (playerStats st) →
  acc st id = Some q →
  playerStats (handle st d) !! id = playerStats st !! id
  ∧ ∃ q', acc (handle st d) id = Some q'
          ∧ Player.SteamID q' = Player.SteamID q
          ∧ Player.Name q' = Player.Name q
          ∧ Player.Team q' = Player.Team q.
Proof.
  intros Hok Hq.
  destruct d as [gs [e|e|e|]]; unfold handle; cbn [fst snd];
    try (by split; [|exists q]).
  rewrite acc_onKill. destruct (onKill_store gs e st) as [_ ->].
  by apply counted_keeps_entry.
Qed.

Lemma run_keeps_entry es st id q :
  store_ok (heap st) (playerStats st) →
  acc st id = Some q →
  playerStats (run es st) !! id = playerStats st !! id
  ∧ ∃ q', acc (run es st) id = Some q'
          ∧ Player.SteamID q' = Player.SteamID q
          ∧ Player.Name q' = Player.Name q
          ∧ Player.Team q' = Player.Team q.
Proof.
  revert st q. induction es as [|d es IH]; intros st q Hok Hq;
    [by split; [|exists q]|].
  rewrite run_cons.
  destruct (handle_keeps_entry st d id q Hok Hq)
    as (Hp & q1 & Hq1 & Hs1 & Hn1 & Ht1).
  destruct (IH (handle st d) q1 (handle_store_ok st d Hok) Hq1)
    as (Hp' & q2 & Hq2 & Hs2 & Hn2 & Ht2).
  split; [congruence|]. exists q2. repeat split; congruence.
Qed.

End StoreFacts.

(** ** Counters stay within the number of events processed *)

Section Bounds.

Context `{Demoinfocs}.

Lemma count_heap (P Q : Player → Prop) f x st :
  (∀ q, P q → Q q ∧ Q (f q)) →
  (∀ p, Q (f (fresh_accumulator p))) →
  (∀ l q, heap st !! l = Some q → P q) →
  ∀ l q, heap (count f x st) !! l = Some q → Q q.
Proof.
  intros HPQ Hfresh HP l q Hq. destruct x as [p|].
  - destruct (count_spec f p st) as [(l0 & _ & Hh & _) | (_ & Hh & _)];
      rewrite Hh in Hq.
    + destruct (decide (l0 = l)) as [->|Hne].
      * rewrite list_lookup_alter_eq in Hq.
        destruct (heap st !! l) as [q0|] eqn:Hq0; [|done].
        injection Hq as <-. by apply HPQ, (HP l).
      * rewrite list_lookup_alter_ne in Hq by done. by apply HPQ, (HP l).
    + apply lookup_app_Some in Hq as [Hq | [_ Hq]].
      * by apply HPQ, (HP l).
      * apply list_lookup_singleton_Some in Hq as [_ <-]. apply Hfresh.
  - by apply HPQ, (HP l).
Qed.

Lemma add_1_small z n :
  0 <= z <= n → n < GoInt.max_int → GoInt.add z 1 = z + 1.
Proof.
  intros Hz Hn. unfold GoInt.add. apply wrap_in_range.
  unfold GoInt.in_range, GoInt.min_int, GoInt.max_int in *. lia.
Qed.

Lemma counted_bounded e st n :
  0 <= n < GoInt.max_int →
  heap_bounded n n n (heap st) →
  heap_bounded (n + 1) (n + 1) (n + 1) (heap (counted e st)).
Proof.
  intros Hn Hb. unfold counted, heap_bounded.
  apply (count_heap (within (n + 1) (n + 1) n)).
  { intros [] (Hk & Hd & Ha); cbn in *. unfold within; cbn.
    rewrite (add_1_small _ n) by lia. lia. }
  { intros p. unfold within; cbn. rewrite (add_1_small 0 n) by lia. lia. }
  apply (count_heap (within (n + 1) n n)).
  { intros [] (Hk & Hd & Ha); cbn in *. unfold within; cbn.
    rewrite (add_1_small _ n) by lia. lia. }
  { intros p. unfold within; cbn. rewrite (add_1_small 0 n) by lia. lia. }
  apply (count_heap (within n n n)).
  { intros [] (Hk & Hd & Ha); cbn in *. unfold within; cbn.
    rewrite (add_1_small _ n) by lia. lia. }
  { intros p. unfold within; cbn. rewrite (add_1_small 0 n) by lia. lia. }
  exact Hb.
Qed.

Lemma handle_bounded st d n :
  0 <= n < GoInt.max_int →
  heap_bounded n n n (heap st) →
  heap_bounded (n + 1) (n + 1) (n + 1) (heap (handle st d)).
Proof.
  intros Hn Hb.
  assert (heap_bounded (n + 1) (n + 1) (n + 1) (heap st)) as Hmono.
  { intros l p Hp. destruct (Hb l p Hp) as (? & ? & ?).
    unfold within. lia. }
  destruct d as [gs [e|e|e|]]; unfold handle; cbn [fst snd]; try done.
  destruct (onKill_store gs e st) as [-> _]. by apply counted_bounded.
Qed.

Lemma run_bounded es st n :
  0 <= n →
  n + Z.of_nat (length es) <= GoInt.max_int →
  heap_bounded n n n (heap st) →
  let m := n + Z.of_nat (length es) in
  heap_bounded m m m (heap (run es st)).
Proof.
  revert st n. induction es as [|d es IH]; intros st n Hn Hmax Hb m.
  { subst m. cbn. by rewrite Z.add_0_r. }
  rewrite run_cons. subst m. cbn [length] in *.
  replace (n + Z.of_nat (S (length es)))
    with ((n + 1) + Z.of_nat (length es)) by lia.
  apply IH; [lia | lia |]. apply handle_bounded; [lia | done].
Qed.

Lemma reachable_bounded demoID es id :
  Z.of_nat (length es) <= GoInt.max_int →
  let st := run es (initial demoID) in
  let n := Z.of_nat (length es) in
  0 <= kills_of st id <= n
  ∧ 0 <= deaths_of st id <= n
  ∧ 0 <= assists_of st id <= n.
Proof.
  intros Hlen st n.
  pose proof (run_bounded es (initial demoID) 0 ltac:(lia) ltac:(lia)) as Hb.
  cbn zeta in Hb. rewrite Z.add_0_l in Hb. fold n in Hb.
  unfold kills_of, deaths_of, assists_of, acc.
  destruct (playerStats st !! id) as [l|]; cbn; [|lia].
  destruct (heap st !! l) as [q|] eqn:Hq; cbn; [|lia].
  apply (Hb ltac:(by intros []) l q Hq).
Qed.

End Bounds.

(** ** The kill handler *)

Section KillFacts.

Context `{Demoinfocs}.

Lemma field_counted_inc (g : Player → Z) f x st id :
  (∀ p, g (fresh_accumulator p) = 0) →
  (∀ q, g (f q) = GoInt.add (g q) 1) →
  store_ok (heap st) (playerStats st) →
  from_option g 0 (acc (count f x st) id)
  = if decide (names x id)
    then GoInt.add (from_option g 0 (acc st id)) 1
    else from_option g 0 (acc st id).
Proof.
  intros Hfresh Hf Hok. destruct x as [p|].
  - rewrite field_count_inc by done.
    repeat case_decide; try done.
    + exfalso. match goal with Hn : ¬ names _ _ |- _ => apply Hn end.
      by exists p.
    + match goal with Hn : names _ _ |- _ =>
        destruct Hn as (p' & [= <-] & Hp) end. congruence.
  - case_decide as Hn; [|done]. by destruct Hn as (p' & [=] & _).
Qed.

Lemma kills_counted e st id :
  store_ok (heap st) (playerStats st) →
  kills_of (counted e st) id
  = if decide (names (events.Kill.Killer e) id)
    then GoInt.add (kills_of st id) 1 else kills_of st id.
Proof.
  intros Hok. unfold kills_of, counted.
  pose proof (count_store_ok Player.incKills (events.Kill.Killer e) st
                incKills_labels Hok) as Hok1.
  pose proof (count_store_ok Player.incDeaths (events.Kill.Victim e) _
                incDeaths_labels Hok1) as Hok2.
  rewrite (field_count_keep Player.Kills Player.incAssists) by done.
  rewrite (field_count_keep Player.Kills Player.incDeaths) by done.
  by rewrite (field_counted_inc Player.Kills Player.incKills).
Qed.

Lemma deaths_counted e st id :
  store_ok (heap st) (playerStats st) →
  deaths_of (counted e st) id
  = if decide (names (events.Kill.Victim e) id)
    then GoInt.add (deaths_of st id) 1 else deaths_of st id.
Proof.
  intros Hok. unfold deaths_of, counted.
  pose proof (count_store_ok Player.incKills (events.Kill.Killer e) st
                incKills_labels Hok) as Hok1.
  pose proof (count_store_ok Player.incDeaths (events.Kill.Victim e) _
                incDeaths_labels Hok1) as Hok2.
  rewrite (field_count_keep Player.Deaths Player.incAssists) by done.
  rewrite (field_counted_inc Player.Deaths Player.incDeaths) by done.
  by rewrite (field_count_keep Player.Deaths Player.incKills).
Qed.

Lemma assists_counted e st id :
  store_ok (heap st) (playerStats st) →
  assists_of (counted e st) id
  = if decide (names (events.Kill.Assister e) id)
    then GoInt.add (assists_of st id) 1 else assists_of st id.
Proof.
  intros Hok. unfold assists_of, counted.
  pose proof (count_store_ok Player.incKills (events.Kill.Killer e) st
                incKills_labels Hok) as Hok1.
  pose proof (count_store_ok Player.incDeaths (events.Kill.Victim e) _
                incDeaths_labels Hok1) as Hok2.
  rewrite (field_counted_inc Player.Assists Player.incAssists) by done.
  rewrite (field_count_keep Player.Assists Player.incDeaths) by done.
  by rewrite (field_count_keep Player.Assists Player.incKills).
Qed.

Lemma acc_count_other f x st id :
  store_ok (heap st) (playerStats st) →
  ¬ names x id →
  acc (count f x st) id = acc st id.
Proof.
  intros Hok Hn. destruct x as [p|]; [|done].
  rewrite acc_count by done. case_decide as Hid; [|done].
  exfalso. apply Hn. by exists p.
Qed.

(** An identity the kill does not reference keeps its accumulator, or its
    lack of one. *)
Lemma acc_counted_other e st id :
  store_ok (heap st) (playerStats st) →
  ¬ names (events.Kill.Killer e) id →
  ¬ names (events.Kill.Victim e) id →
  ¬ names (events.Kill.Assister e) id →
  acc (counted e st) id = acc st id.
Proof.
  intros Hok Hk Hv Ha. unfold counted.
  pose proof (count_store_ok Player.incKills (events.Kill.Killer e) st
                incKills_labels Hok) as Hok1.
  pose proof (count_store_ok Player.incDeaths (events.Kill.Victim e) _
                incDeaths_labels Hok1) as Hok2.
  by rewrite !acc_count_other.
Qed.

End KillFacts.

(** C2, as amended.  After any sequence of fewer than 2^63 - 1 events, a
    kill with a present killer K and a present victim V of distinct
    identities raises K's kill count by exactly 1 and V's death count by
    exactly 1.  No other kill count and no other death count changes.
    The assist count of a present assister rises by exactly 1 and no
    other assist count changes.  An identity that is neither the killer,
    the victim nor the assister keeps its accumulator untouched. *)
Theorem kill_counts `{Demoinfocs} demoID es gs e K V :
  Z.of_nat (length es) < GoInt.max_int →
  events.Kill.Killer e = Some K →
  events.Kill.Victim e = Some V →
  common.Player.SteamID64 K ≠ common.Player.SteamID64 V →
  let st := run es (initial demoID) in
  let st' := handle st (gs, EvKill e) in
  let k := common.Player.SteamID64 K in
  let v := common.Player.SteamID64 V in
  kills_of st' k = kills_of st k + 1
  ∧ deaths_of st' v = deaths_of st v + 1
  ∧ (∀ id, id ≠ k → kills_of st' id = kills_of st id)
  ∧ (∀ id, id ≠ v → deaths_of st' id = deaths_of st id)
  ∧ (∀ id, assists_of st' id
           = if decide (names (events.Kill.Assister e) id)
             then assists_of st id + 1 else assists_of st id)
  ∧ (∀ id, id ≠ k → id ≠ v → ¬ names (events.Kill.Assister e) id →
           acc st' id = acc st id).
Proof.
  intros Hlen HK HV Hne st st' k v.
  pose proof (reachable_store_ok demoID es) as Hok. fold st in Hok.
  assert (∀ id, acc st' id = acc (counted e st) id) as Hacc
    by (intros; apply acc_handle_kill).
  assert (∀ id, kills_of st' id = kills_of (counted e st) id) as Hk'
    by (intros; unfold kills_of; by rewrite Hacc).
  assert (∀ id, deaths_of st' id = deaths_of (counted e st) id) as Hd'
    by (intros; unfold deaths_of; by rewrite Hacc).
  assert (∀ id, assists_of st' id = assists_of (counted e st) id) as Ha'
    by (intros; unfold assists_of; by rewrite Hacc).
  assert (∀ z, 0 <= z <= Z.of_nat (length es) → GoInt.add z 1 = z + 1)
    as Hadd.
  { intros z Hz. by apply (add_1_small z (Z.of_nat (length es))). }
  assert (∀ id, names (Some K) id ↔ id = k) as HnK.
  { intros id. split; [by intros (p & [= <-] & <-)|]. intros ->. by exists K. }
  assert (∀ id, names (Some V) id ↔ id = v) as HnV.
  { intros id. split; [by intros (p & [= <-] & <-)|]. intros ->. by exists V. }
  repeat split.
  - rewrite Hk', kills_counted, HK by done.
    rewrite decide_True by by apply HnK.
    apply Hadd. apply (reachable_bounded demoID es k). lia.
  - rewrite Hd', deaths_counted, HV by done.
    rewrite decide_True by by apply HnV.
    apply Hadd. apply (reachable_bounded demoID es v). lia.
  - intros id Hid. rewrite Hk', kills_counted, HK by done.
    rewrite decide_False; [done|]. by rewrite HnK.
  - intros id Hid. rewrite Hd', deaths_counted, HV by done.
    rewrite decide_False; [done|]. by rewrite HnV.
  - intros id. rewrite Ha', assists_counted by done.
    case_decide; [|done].
    apply Hadd. apply (reachable_bounded demoID es id). lia.
  - intros id Hk Hv Ha. rewrite Hacc. apply acc_counted_other; try done.
    + rewrite HK. by rewrite HnK.
    + rewrite HV. by rewrite HnV.
Qed.

Lemma kill_counts_witness :
  kills_of two_kill_state 11 = kills_of one_kill_state 11 + 1
  ∧ deaths_of two_kill_state 22 = deaths_of one_kill_state 22 + 1
  ∧ assists_of two_kill_state 33 = assists_of one_kill_state 33 + 1
  ∧ acc two_kill_state 44 = acc one_kill_state 44.
Proof.
  destruct (@kill_counts plain_lib "demo-1"
              [(at_tick 5, EvKill sample_kill)] (at_tick 9) assisted_kill
              (common.Player.mk 11 "kay" common.TeamTerrorists)
              (common.Player.mk 22 "vee" common.TeamCounterTerrorists))
    as (Hk & Hd & _ & _ & Ha & Hacc).
  - unfold GoInt.max_int. cbn. lia.
  - reflexivity.
  - reflexivity.
  - cbn. lia.
  - split; [exact Hk|]. split; [exact Hd|]. split; [exact (Ha 33%N)|].
    apply Hacc; [done | done |]. intros (p & [= <-] & Hp). done.
Defined.

(** C2, as stated, fails: with a present assister that is neither the
    killer nor the victim, the assister's assist count changes. *)
Lemma kill_counts_assister_counterexample :
  events.Kill.Killer assisted_kill
    = Some (common.Player.mk 11 "kay" common.TeamTerrorists)
  ∧ events.Kill.Victim assisted_kill
    = Some (common.Player.mk 22 "vee" common.TeamCounterTerrorists)
  ∧ first_assisted_state
    = @handle plain_lib (initial "demo-1") (at_tick 9, EvKill assisted_kill)
  ∧ assists_of (initial "demo-1") 33 = 0
  ∧ assists_of first_assisted_state 33 = 1
  ∧ ¬ (∀ id : N, id ≠ 11%N → id ≠ 22%N →
         kills_of first_assisted_state id = kills_of (initial "demo-1") id
         ∧ deaths_of first_assisted_state id = deaths_of (initial "demo-1") id
         ∧ assists_of first_assisted_state id
           = assists_of (initial "demo-1") id).
Proof.
  split; [reflexivity|]. split; [reflexivity|]. split; [reflexivity|].
  split; [reflexivity|]. split; [reflexivity|].
  intros Hall. destruct (Hall 33%N) as (_ & _ & Ha); [done | done |].
  vm_compute in Ha. discriminate Ha.
Qed.

(** C7.  A kill with an absent assister raises nobody's assist count.
    If the kill has a weapon, its handler appends one event record, whose
    payload has exactly the keys killer, victim, weapon, isHeadshot and
    penetrated: there is no assister entry.  The killer and victim entries
    are always strings: the player's name, or the sentinel "unknown" when
    the player is absent, never a nil.  If the kill has no weapon, the
    handler panics after the counters and appends nothing. *)
Theorem kill_without_assister `{Demoinfocs} demoID es gs e :
  events.Kill.Assister e = None →
  let st := run es (initial demoID) in
  let st' := handle st (gs, EvKill e) in
  (∀ id, assists_of st' id = assists_of st id)
  ∧ match events.Kill.Weapon e with
    | Some _ =>
        panics (gs, EvKill e) = false
        ∧ ∃ ev,
            ParsedData.Events (parsed st')
            = ParsedData.Events (parsed st) ++ [ev]
            ∧ GameEvent.EventData ev !! "assister" = None
            ∧ dom (GameEvent.EventData ev)
              = ({["killer"; "victim"; "weapon"; "isHeadshot"; "penetrated"]}
                   : gset string)
            ∧ GameEvent.EventData ev !! "killer"
              = Some (AString match events.Kill.Killer e with
                              | Some killer => common.Player.Name killer
                              | None => "unknown"
                              end)
            ∧ GameEvent.EventData ev !! "victim"
              = Some (AString match events.Kill.Victim e with
                              | Some victim => common.Player.Name victim
                              | None => "unknown"
                              end)
    | None =>
        panics (gs, EvKill e) = true
        ∧ ParsedData.Events (parsed st') = ParsedData.Events (parsed st)
    end.
Proof.
  intros HA st st'. split.
  - intros id.
    assert (assists_of st' id = assists_of (counted e st) id) as ->
      by (unfold assists_of, st'; by rewrite acc_handle_kill).
    rewrite assists_counted by apply reachable_store_ok.
    rewrite HA. case_decide as Hn; [|done].
    by destruct Hn as (p & [=] & _).
  - unfold st', handle, panics. cbn [fst snd]. rewrite onKill_events.
    destruct (events.Kill.Weapon e) as [weapon|].
    + split; [done|]. eexists. split; [reflexivity|].
      cbn [GameEvent.EventData]. unfold killEventData.
      split; [done|]. split.
      { rewrite !dom_insert_L, dom_empty_L. set_solver. }
      split; [by destruct (events.Kill.Killer e)|].
      by destruct (events.Kill.Victim e).
    + split; [done|]. by rewrite app_nil_r.
Qed.

Lemma kill_without_assister_witness :
  (∀ id,
     assists_of (@handle plain_lib one_kill_state (at_tick 7, EvKill world_kill))
       id
     = assists_of one_kill_state id)
  ∧ (∃ ev,
       ParsedData.Events
         (parsed (@handle plain_lib one_kill_state
                    (at_tick 7, EvKill world_kill)))
       = ParsedData.Events (parsed one_kill_state) ++ [ev]
       ∧ GameEvent.EventData ev !! "assister" = None
       ∧ GameEvent.EventData ev !! "killer" = Some (AString "unknown")
       ∧ GameEvent.EventData ev !! "victim" = Some (AString "vee"))
  ∧ ParsedData.Events
      (parsed (@handle plain_lib one_kill_state
                 (at_tick 7, EvKill unarmed_kill)))
    = ParsedData.Events (parsed one_kill_state).
Proof.
  destruct (@kill_without_assister plain_lib "demo-1"
              [(at_tick 5, EvKill sample_kill)] (at_tick 7) world_kill
              eq_refl)
    as (Ha & _ & ev & Hev & Hnone & _ & Hk & Hv).
  destruct (@kill_without_assister plain_lib "demo-1"
              [(at_tick 5, EvKill sample_kill)] (at_tick 7) unarmed_kill
              eq_refl)
    as (_ & _ & Hpanic).
  split; [exact Ha|]. split; [|exact Hpanic].
  exists ev. split; [exact Hev|]. split; [exact Hnone|].
  split; [exact Hk | exact Hv].
Defined.

(** ** One accumulator per identity *)

Section Identity.

Context `{Demoinfocs}.

Lemma store_ok_unique h stats id : store_ok h stats → at_most_one h id.
Proof.
  intros [Hpts Hown] l1 l2 p1 p2 H1 H2 Hs1 Hs2.
  assert (∀ l p, h !! l = Some p → Player.SteamID p = Sprintf_d id →
                 stats !! id = Some l) as Hback.
  { intros l p Hl Hs. destruct (Hown _ _ Hl) as (id' & Hid').
    destruct (Hpts _ _ Hid') as (p' & Hp' & Hs').
    assert (id' = id) as <-; [|done].
    apply Sprintf_d_inj. congruence. }
  pose proof (Hback _ _ H1 Hs1). pose proof (Hback _ _ H2 Hs2). congruence.
Qed.

Lemma drain_ids_aux h stats (L : list (N * nat)) :
  store_ok h stats →
  (∀ id l, (id, l) ∈ L → stats !! id = Some l) →
  Player.SteamID <$> omap (λ kv : N * nat, h !! kv.2) L
  = Sprintf_d <$> (fst <$> L).
Proof.
  intros [Hpts _]. induction L as [|[id l] L IH]; intros HL; [done|].
  destruct (Hpts id l) as (p & Hp & Hs); [apply HL; left|].
  cbn. rewrite Hp. cbn. rewrite Hs. f_equal. apply IH.
  intros id' l' Hin. apply HL. by right.
Qed.

(** The drained list names every identity of the map once. *)
Lemma drain_NoDup st :
  store_ok (heap st) (playerStats st) →
  NoDup (Player.SteamID <$> drain st).
Proof.
  intros Hok. unfold drain.
  rewrite (drain_ids_aux (heap st) (playerStats st)); [|done|].
  - apply NoDup_fmap_2; [intros ? ?; apply Sprintf_d_inj|].
    apply NoDup_fst_map_to_list.
  - intros id l Hin. by apply elem_of_map_to_list in Hin.
Qed.

Lemma first_sighting_as_killer gs e K st :
  store_ok (heap st) (playerStats st) →
  acc st (common.Player.SteamID64 K) = None →
  events.Kill.Killer e = Some K →
  ∃ q, acc (handle st (gs, EvKill e)) (common.Player.SteamID64 K) = Some q
       ∧ Player.Name q = common.Player.Name K
       ∧ Player.Team q = Player.Team (fresh_accumulator K).
Proof.
  intros Hok Hnone HK. unfold handle. cbn [fst snd]. rewrite acc_onKill.
  unfold counted. rewrite HK.
  pose proof (count_store_ok Player.incKills (Some K) st
                incKills_labels Hok) as Hok1.
  pose proof (count_store_ok Player.incDeaths (events.Kill.Victim e) _
                incDeaths_labels Hok1) as Hok2.
  assert (acc (count Player.incKills (Some K) st) (common.Player.SteamID64 K)
          = Some (Player.incKills (fresh_accumulator K))) as Hq1.
  { rewrite acc_count, Hnone by done. by rewrite decide_True. }
  destruct (count_keeps_entry Player.incDeaths (events.Kill.Victim e) _ _ _
              incDeaths_labels Hok1 Hq1) as (_ & q2 & Hq2 & _ & Hn2 & Ht2).
  destruct (count_keeps_entry Player.incAssists (events.Kill.Assister e) _ _ _
              incAssists_labels Hok2 Hq2) as (_ & q3 & Hq3 & _ & Hn3 & Ht3).
  exists q3. split; [done|].
  split; [by rewrite Hn3, Hn2 | by rewrite Ht3, Ht2].
Qed.

End Identity.

(** C4.  At every point of the processing of any event sequence (between
    two events, and between the guarded blocks of a kill handler) at most
    one allocated accumulator carries a given identity, and the result
    lists no identity twice.  Once an identity has an accumulator, every
    later event leaves its map entry, its name and its team label as they
    are, whatever name or team later references carry.  The name and the
    team label are those of the reference that created it. *)
Theorem one_accumulator_per_identity `{Demoinfocs} demoID es id :
  let st := run es (initial demoID) in
  at_most_one (heap st) id
  ∧ (∀ e,
       let st1 := count Player.incKills (events.Kill.Killer e) st in
       let st2 := count Player.incDeaths (events.Kill.Victim e) st1 in
       at_most_one (heap st1) id ∧ at_most_one (heap st2) id)
  ∧ NoDup (Player.SteamID <$> drain st)
  ∧ (∀ q es',
       acc st id = Some q →
       playerStats (run (es ++ es') (initial demoID)) !! id
       = playerStats st !! id
       ∧ ∃ q', acc (run (es ++ es') (initial demoID)) id = Some q'
               ∧ Player.Name q' = Player.Name q
               ∧ Player.Team q' = Player.Team q)
  ∧ (∀ gs e K,
       acc st id = None →
       events.Kill.Killer e = Some K →
       common.Player.SteamID64 K = id →
       ∃ q, acc (handle st (gs, EvKill e)) id = Some q
            ∧ Player.Name q = common.Player.Name K
            ∧ Player.Team q
              = match common.Player.Team K with
                | common.TeamTerrorists => "T"
                | common.TeamCounterTerrorists => "CT"
                | _ => "spectator"
                end).
Proof.
  intros st. pose proof (reachable_store_ok demoID es) as Hok. fold st in Hok.
  split; [|split; [|split; [|split]]].
  - by apply (store_ok_unique _ (playerStats st)).
  - intros e st1 st2.
    pose proof (count_store_ok Player.incKills (events.Kill.Killer e) st
                  incKills_labels Hok) as Hok1. fold st1 in Hok1.
    pose proof (count_store_ok Player.incDeaths (events.Kill.Victim e) st1
                  incDeaths_labels Hok1) as Hok2. fold st2 in Hok2.
    split; [by apply (store_ok_unique _ (playerStats st1))
           | by apply (store_ok_unique _ (playerStats st2))].
  - by apply drain_NoDup.
  - intros q es' Hq. rewrite run_app. fold st.
    destruct (run_keeps_entry es' st id q Hok Hq)
      as (Hp & q' & Hq' & _ & Hn & Ht).
    split; [done|]. by exists q'.
  - intros gs e K Hnone HK <-.
    destruct (first_sighting_as_killer gs e K st Hok Hnone HK)
      as (q & Hq & Hn & Ht).
    exists q. split; [done|]. split; [done|]. rewrite Ht. cbn.
    by destruct (common.Player.Team K).
Qed.

Lemma one_accumulator_per_identity_witness :
  playerStats switched_state !! 11%N = playerStats one_kill_state !! 11%N
  ∧ ∃ q', acc switched_state 11 = Some q'
          ∧ Player.Name q' = "kay"
          ∧ Player.Team q' = "T".
Proof.
  pose proof (@one_accumulator_per_identity plain_lib "demo-1"
                [(at_tick 5, EvKill sample_kill)] 11%N)
    as (_ & _ & _ & Hkeep & _).
  exact (Hkeep (Player.mk "11" "kay" "T" 1 0 0 float64_zero float64_zero
                  float64_zero float64_zero ∅)
           [(at_tick 9, EvKill assisted_kill); sample_start 20 1;
            (at_tick 30, EvKill switched_kill)]
           eq_refl).
Defined.

(** ** Metadata: the conversion from float64 *)

Lemma Qabs_inject_Z z : Qabs (inject_Z z) = inject_Z (Z.abs z).
Proof. done. Qed.

Lemma pow2_pos k : 0 < 2 ^ Z.pos k.
Proof. apply Z.pow_pos_nonneg; lia. Qed.

(** For a finite float whose integer part fits, [int(f)] is the value with
    its fraction discarded. *)
Lemma int_of_float64_truncates f :
  fits_int f → truncation_of (float64_Q f) (int_of_float64 f).
Proof.
  intros (z & Hz & Hr). unfold int_of_float64. rewrite Hz.
  rewrite decide_True by done.
  destruct f as [s|s| |s m e]; try discriminate Hz.
  - injection Hz as <-. repeat split; done.
  - cbn in Hz. injection Hz as <-. unfold float64_Q, truncation_of.
    destruct (Z.leb 0 e) eqn:He.
    + assert ((if s then - (Z.pos m * 2 ^ e) else Z.pos m * 2 ^ e)
              = (if s then Z.neg m else Z.pos m) * 2 ^ e) as ->.
      { destruct s; [|done]. by rewrite <- Z.mul_opp_l. }
      set (n := (if s then Z.neg m else Z.pos m) * 2 ^ e).
      rewrite Qabs_inject_Z. unfold Qle, Qlt. cbn. nia.
    + apply Z.leb_gt in He. destruct e as [|e|e]; try lia.
      change (- Z.neg e) with (Z.pos e) in *.
      pose proof (pow2_pos e) as HD.
      set (D := 2 ^ Z.pos e) in *.
      pose proof (Z.div_mod (Z.pos m) D ltac:(lia)) as Hdm.
      pose proof (Z.mod_pos_bound (Z.pos m) D HD) as Hmod.
      pose proof (Z.div_pos (Z.pos m) D ltac:(lia) HD) as Ha.
      set (a := Z.pos m / D) in *.
      assert (Z.abs (Z.neg m) = Z.pos m) as Hneg by done.
      assert (Z.abs (Z.pos m) = Z.pos m) as Hpos by done.
      rewrite Qabs_inject_Z. unfold Qabs, Qle, Qlt, Qmult, Qplus, inject_Z.
      cbn [Qnum Qden]. rewrite !Z2Pos.id by lia.
      rewrite ?Pos.mul_1_l, ?Z2Pos.id by lia.
      destruct s; rewrite ?Z.abs_opp, ?Hneg, ?Hpos, (Z.abs_eq a) by lia;
        repeat split; nia.
Qed.

(** C8, as amended.  On clean completion (the parser is built, no handler
    panics, the decoder reports no error) the metadata carries the header's
    map name, and its tick rate and duration are the header's frame rate
    and playback seconds converted by [int(f)]: for finite values whose
    integer part fits an [int], the value with its fraction discarded
    (rounded toward zero), not the nearest integer. *)
Theorem metadata_from_header `{Demoinfocs} demoID data p :
  NewParser data = Returned p →
  existsb panics (ParserRun.dispatched p) = false →
  ParserRun.ParseToEnd p = None →
  let header := ParserRun.Header p in
  ∃ d,
    parseDemo demoID data = Returned (Ok d)
    ∧ Metadata.MapName (ParsedData.Metadata d)
      = common.DemoHeader.MapName header
    ∧ Metadata.TickRate (ParsedData.Metadata d)
      = int_of_float64 (common.DemoHeader.FrameRate header)
    ∧ Metadata.Duration (ParsedData.Metadata d)
      = int_of_float64 (common.DemoHeader.PlaybackTime_Seconds header)
    ∧ (fits_int (common.DemoHeader.FrameRate header) →
       truncation_of (float64_Q (common.DemoHeader.FrameRate header))
         (Metadata.TickRate (ParsedData.Metadata d)))
    ∧ (fits_int (common.DemoHeader.PlaybackTime_Seconds header) →
       truncation_of
         (float64_Q (common.DemoHeader.PlaybackTime_Seconds header))
         (Metadata.Duration (ParsedData.Metadata d))).
Proof.
  intros Hp Hcalm Hend header. unfold parseDemo. rewrite Hp, Hcalm, Hend.
  eexists. split; [reflexivity|].
  cbn [finish ParsedData.Metadata Metadata.MapName Metadata.TickRate
       Metadata.Duration].
  repeat split; try done; apply int_of_float64_truncates; done.
Qed.

Lemma metadata_from_header_witness :
  ∃ d,
    @parseDemo (fixed_run (ParserRun.mk one_round_trace None header_127_75))
      "demo-1" demo_bytes = Returned (Ok d)
    ∧ Metadata.MapName (ParsedData.Metadata d) = "de_mirage"
    ∧ Metadata.TickRate (ParsedData.Metadata d) = 127
    ∧ Metadata.Duration (ParsedData.Metadata d) = 2700.
Proof.
  destruct (@metadata_from_header
              (fixed_run (ParserRun.mk one_round_trace None header_127_75))
              "demo-1" demo_bytes _ eq_refl eq_refl eq_refl)
    as (d & Hd & Hm & Ht & Hs & _).
  exists d. split; [exact Hd|]. split; [exact Hm|].
  split; [rewrite Ht | rewrite Hs]; reflexivity.
Defined.

(** C8, as stated, fails: a header whose frame rate is 127.75 yields tick
    rate 127, while the nearest integer is 128. *)
Lemma tick_rate_rounding_counterexample :
  valid_binary 53 1024 rate_127_75 = true
  ∧ (float64_Q rate_127_75 == 511 # 4)%Q
  ∧ (∃ d,
       @parseDemo (fixed_run (ParserRun.mk one_round_trace None header_127_75))
         "demo-1" demo_bytes = Returned (Ok d)
       ∧ Metadata.TickRate (ParsedData.Metadata d) = 127)
  ∧ nearest_integer (float64_Q rate_127_75) 128
  ∧ ¬ nearest_integer (float64_Q rate_127_75) 127.
Proof.
  split; [reflexivity|]. split; [reflexivity|].
  split; [eexists; split; reflexivity|].
  assert (float64_Q rate_127_75 = 8989607068696576 # 70368744177664)
    as -> by reflexivity.
  split.
  - intros k. unfold Qabs, Qle, Qminus, Qplus, Qopp, inject_Z.
    cbn [Qnum Qden]. lia.
  - intros Hn. specialize (Hn 128). revert Hn.
    unfold Qabs, Qle, Qminus, Qplus, Qopp, inject_Z. cbn. lia.
Qed.

(** ** The HTTP handler *)

(** A request sent with GET stays a GET along every chain of redirects. *)
Lemma follow_get req h :
  HttpRequest.Method req = "GET" → HttpRequest.Method (follow req h) = "GET".
Proof.
  intros Hm. unfold follow.
  destruct (Hop.Status h); cbn [HttpRequest.Method]; try done;
    by rewrite decide_True by (by left).
Qed.

Lemma followed_get req hops :
  HttpRequest.Method req = "GET" →
  Forall (λ q, HttpRequest.Method q = "GET") (followed req hops).
Proof.
  revert req. induction hops as [|h hops IH]; intros req Hm; [constructor|].
  cbn [followed]. constructor; [by apply follow_get|].
  apply IH. by apply follow_get.
Qed.

Lemma no_post_sent (qs : list HttpRequest) :
  Forall (λ q, HttpRequest.Method q = "GET") qs →
  forallb (λ ef, negb (is_post ef)) (Sent <$> qs) = true.
Proof.
  induction 1 as [|q qs Hq _ IH]; [done|].
  cbn [fmap list_fmap forallb is_post]. rewrite Hq.
  by rewrite bool_decide_false.
Qed.

(** Which runs of [parseDemo] panic: the decoder on creation, or a handler
    during [ParseToEnd]. *)
Lemma parseDemo_Panic `{Demoinfocs} demoID data :
  parseDemo demoID data = Panic
  ↔ NewParser data = Panic
    ∨ ∃ p, NewParser data = Returned p
           ∧ existsb panics (ParserRun.dispatched p) = true.
Proof.
  unfold parseDemo. destruct (NewParser data) as [p|].
  - destruct (existsb panics (ParserRun.dispatched p)) eqn:Hp.
    + split; [|done]. intros _. right. by exists p.
    + split.
      * by destruct (ParserRun.ParseToEnd p).
      * intros [|(p' & [= <-] & Hp')]; [done|]. by rewrite Hp in Hp'.
  - split; [by left|done].
Qed.

(** A run of [parseDemo] that returns: the decoder was built and no handler
    panicked; the decoder's verdict decides between error and result. *)
Lemma parseDemo_Returned `{Demoinfocs} demoID data res :
  parseDemo demoID data = Returned res
  ↔ ∃ p, NewParser data = Returned p
         ∧ existsb panics (ParserRun.dispatched p) = false
         ∧ res = match ParserRun.ParseToEnd p with
                 | Some err => Err err
                 | None =>
                     Ok (finish (ParserRun.Header p)
                           (run (ParserRun.dispatched p) (initial demoID)))
                 end.
Proof.
  unfold parseDemo. destruct (NewParser data) as [p|].
  - destruct (existsb panics (ParserRun.dispatched p)) eqn:Hp.
    + split; [done|]. intros (p' & [= <-] & Hp' & _). by rewrite Hp in Hp'.
    + split.
      * intros Hres. exists p. split; [done|]. split; [done|].
        destruct (ParserRun.ParseToEnd p); by injection Hres as <-.
      * intros (p' & [= <-] & _ & ->).
        by destruct (ParserRun.ParseToEnd p).
  - split; [done|]. by intros (p & ? & _).
Qed.

Section ServiceFacts.

Context `{Demoinfocs} (W : World).

(** [parseHandler], with the effects of each path written out. *)
Lemma parseHandler_paths w r :
  parseHandler W w r
  = if decide (Request.Method r ≠ MethodPost)
    then (Returned (http_Error w "Method not allowed" StatusMethodNotAllowed),
          [])
    else
      match json_Decode W (Request.Body r) with
      | Err err => (Returned (http_Error w err StatusBadRequest), [])
      | Ok req =>
          let started := Logged ("Parsing demo: " +:+ ParseRequest.DemoID req) in
          let dl := downloadDemo W (ParseRequest.FilePath req) in
          match dl.1 with
          | Err err =>
              (Returned (http_Error w err StatusInternalServerError),
               started :: dl.2 ++ [Logged ("Error downloading demo: " +:+ err)])
          | Ok demoData =>
              match parseDemo (ParseRequest.DemoID req) demoData with
              | Panic => (Panic, started :: dl.2)
              | Returned (Err err) =>
                  (Returned (http_Error w err StatusInternalServerError),
                   started :: dl.2 ++ [Logged ("Error parsing demo: " +:+ err)])
              | Returned (Ok parsedData) =>
                  let sd := sendToWebhook W parsedData in
                  match sd.1 with
                  | Some err =>
                      (Returned (http_Error w err StatusInternalServerError),
                       started :: dl.2 ++ sd.2
                         ++ [Logged ("Error sending to webhook: " +:+ err)])
                  | None =>
                      (Returned (json_Encode_pair "status" "success"
                                   (ResponseWriter.WriteHeader StatusOK w)),
                       started :: dl.2 ++ sd.2)
                  end
              end
          end
      end.
Proof.
  unfold parseHandler. case_decide; [done|].
  destruct (json_Decode W (Request.Body r)) as [req|err]; [|done].
  cbv zeta. unfold mbind, IO_bind, mret, IO_ret, log_Printf.
  destruct (downloadDemo W (ParseRequest.FilePath req)) as [[demoData|err] e1];
    cbn [fst snd]; [|done].
  destruct (parseDemo (ParseRequest.DemoID req) demoData) as [[pd|err]|];
    [|done|by rewrite app_nil_r].
  destruct (sendToWebhook W pd) as [[err|] e2]; cbn [fst snd]; [done|].
  by rewrite !app_nil_r.
Qed.

(** Whatever the download sends, redirects included, is sent with GET. *)
Lemma downloadDemo_no_post filePath :
  forallb (λ ef, negb (is_post ef)) (downloadDemo W filePath).2 = true.
Proof.
  unfold downloadDemo. cbv zeta.
  destruct (NewRequest_error W "GET" _); [done|].
  unfold mbind, IO_bind, client_do, mret, IO_ret.
  match goal with
  | |- context [followed ?q ?hops] =>
      assert (forallb (λ ef, negb (is_post ef)) (Sent q :: (Sent <$> followed q hops))
              = true) as Hsent
        by (cbn [forallb is_post HttpRequest.Method];
            rewrite bool_decide_false by done;
            by apply no_post_sent, followed_get)
  end.
  destruct (client_Do W _) as [hops [resp|err]]; cbn [fst snd] in *.
  - case_decide; [by rewrite app_nil_r|].
    destruct (HttpResponse.ReadAll resp) as [body [err|]];
      by rewrite app_nil_r.
  - by rewrite app_nil_r.
Qed.

Lemma http_Error_fresh msg code :
  plain_text_error code msg (http_Error ResponseWriter.fresh msg code).
Proof. done. Qed.

Lemma http_Error_answers msg code :
  answers_error code msg (Returned (http_Error ResponseWriter.fresh msg code)).
Proof. eexists. split; [reflexivity|]. apply http_Error_fresh. Qed.

End ServiceFacts.

(** C5.  When the decoder reports a fault, whatever events it dispatched
    before, [parseDemo] returns no result, and the handler sends nothing
    but the download: no request is posted to the webhook.  If no handler
    panicked on the events dispatched before the fault, [parseDemo]
    returns the error and the handler answers with a server error. *)
Theorem decode_fault_no_result `{Demoinfocs} W r req demoData p err :
  Request.Method r = MethodPost →
  json_Decode W (Request.Body r) = Ok req →
  (downloadDemo W (ParseRequest.FilePath req)).1 = Ok demoData →
  NewParser demoData = Returned p →
  ParserRun.ParseToEnd p = Some err →
  (∀ d, parseDemo (ParseRequest.DemoID req) demoData ≠ Returned (Ok d))
  ∧ forallb (λ ef, negb (is_post ef))
      (parseHandler W ResponseWriter.fresh r).2 = true
  ∧ (existsb panics (ParserRun.dispatched p) = false →
     parseDemo (ParseRequest.DemoID req) demoData = Returned (Err err)
     ∧ (parseHandler W ResponseWriter.fresh r).2
       = Logged ("Parsing demo: " +:+ ParseRequest.DemoID req)
         :: (downloadDemo W (ParseRequest.FilePath req)).2
         ++ [Logged ("Error parsing demo: " +:+ err)]
     ∧ answers_error StatusInternalServerError err
         (parseHandler W ResponseWriter.fresh r).1).
Proof.
  intros Hm Hreq Hdl Hp Hfault.
  assert (parseDemo (ParseRequest.DemoID req) demoData
          = if existsb panics (ParserRun.dispatched p)
            then Panic else Returned (Err err)) as Hparse.
  { unfold parseDemo. by rewrite Hp, Hfault. }
  split; [rewrite Hparse; by destruct (existsb _ _)|].
  rewrite parseHandler_paths, decide_False, Hreq by (by intros []).
  cbv zeta. rewrite Hdl, Hparse. split.
  - destruct (existsb _ _); cbn [fst snd forallb is_post negb andb].
    + apply downloadDemo_no_post.
    + rewrite forallb_app. by rewrite downloadDemo_no_post.
  - intros ->. cbn [fst snd]. split; [done|]. split; [done|].
    apply http_Error_answers.
Qed.

Lemma decode_fault_no_result_witness :
  (∀ d, @parseDemo truncated_lib "demo-1" demo_bytes ≠ Returned (Ok d))
  ∧ @parseDemo truncated_lib "demo-1" demo_bytes
    = Returned (Err "unexpected EOF")
  ∧ forallb (λ ef, negb (is_post ef))
      (@parseHandler truncated_lib calm_world ResponseWriter.fresh
         (Request.mk "POST" parse_body)).2 = true
  ∧ answers_error 500 "unexpected EOF"
      (@parseHandler truncated_lib calm_world ResponseWriter.fresh
         (Request.mk "POST" parse_body)).1.
Proof.
  destruct (@decode_fault_no_result truncated_lib calm_world
              (Request.mk "POST" parse_body)
              (ParseRequest.mk "demo-1" "uploads/demo-1.dem") demo_bytes
              _ "unexpected EOF" eq_refl eq_refl eq_refl eq_refl eq_refl)
    as (Hnone & Hpost & Hcalm).
  destruct (Hcalm eq_refl) as (Hparse & _ & Hanswer).
  split; [exact Hnone|]. split; [exact Hparse|].
  split; [exact Hpost | exact Hanswer].
Defined.




(** ** Exact counts *)

Section Counts.

Context `{Demoinfocs}.

Lemma acc_handle_other st d id :
  is_kill d = false → acc (handle st d) id = acc st id.
Proof. by destruct d as [gs [e|e|e|]]. Qed.

Lemma kills_handle st d id :
  store_ok (heap st) (playerStats st) →
  kills_of (handle st d) id
  = if kill_names events.Kill.Killer id d
    then GoInt.add (kills_of st id) 1 else kills_of st id.
Proof.
  intros Hok. destruct d as [gs [e|e|e|]]; try done.
  assert (kills_of (handle st (gs, EvKill e)) id
          = kills_of (counted e st) id) as ->
    by (unfold kills_of; by rewrite acc_handle_kill).
  rewrite kills_counted by done. apply decide_bool_decide.
Qed.

Lemma deaths_handle st d id :
  store_ok (heap st) (playerStats st) →
  deaths_of (handle st d) id
  = if kill_names events.Kill.Victim id d
    then GoInt.add (deaths_of st id) 1 else deaths_of st id.
Proof.
  intros Hok. destruct d as [gs [e|e|e|]]; try done.
  assert (deaths_of (handle st (gs, EvKill e)) id
          = deaths_of (counted e st) id) as ->
    by (unfold deaths_of; by rewrite acc_handle_kill).
  rewrite deaths_counted by done. apply decide_bool_decide.
Qed.

Lemma assists_handle st d id :
  store_ok (heap st) (playerStats st) →
  assists_of (handle st d) id
  = if kill_names events.Kill.Assister id d
    then GoInt.add (assists_of st id) 1 else assists_of st id.
Proof.
  intros Hok. destruct d as [gs [e|e|e|]]; try done.
  assert (assists_of (handle st (gs, EvKill e)) id
          = assists_of (counted e st) id) as ->
    by (unfold assists_of; by rewrite acc_handle_kill).
  rewrite assists_counted by done. apply decide_bool_decide.
Qed.

Lemma times_named_snoc role id es d :
  times_named role id (es ++ [d])
  = (times_named role id es + (if kill_names role id d then 1 else 0))%nat.
Proof.
  unfold times_named. rewrite filter_app, length_app. f_equal.
  rewrite filter_cons, filter_nil. by destruct (kill_names role id d).
Qed.

Lemma times_named_le role id es : (times_named role id es ≤ length es)%nat.
Proof. apply length_filter. Qed.

(** A counter that follows the events one by one is the number of events
    that raise it, as long as the sequence is too short for it to wrap. *)
Lemma counter_exact (c : State → N → Z) role demoID es id :
  c (initial demoID) id = 0 →
  (∀ st d, store_ok (heap st) (playerStats st) →
           c (handle st d) id
           = if kill_names role id d then GoInt.add (c st id) 1
             else c st id) →
  Z.of_nat (length es) < GoInt.max_int →
  c (run es (initial demoID)) id = Z.of_nat (times_named role id es).
Proof.
  intros H0 Hstep. induction es as [|d es IH] using rev_ind; intros Hlen.
  { done. }
  rewrite length_app in Hlen. cbn in Hlen.
  rewrite run_snoc, Hstep, IH, times_named_snoc
    by (lia || apply reachable_store_ok).
  pose proof (times_named_le role id es).
  destruct (kill_names role id d); [|lia].
  rewrite (add_1_small _ (Z.of_nat (length es))) by lia. lia.
Qed.

Lemma acc_count_is_Some f x st id :
  store_ok (heap st) (playerStats st) →
  is_Some (acc (count f x st) id) ↔ names x id ∨ is_Some (acc st id).
Proof.
  intros Hok. destruct x as [p|].
  - rewrite acc_count by done. case_decide as Hid.
    + split; [|by eauto]. intros _. left. by exists p.
    + split; [by right|]. intros [(p' & [= <-] & Hp)|Hs]; [done|done].
  - split; [by right|]. by intros [(p' & [=] & _)|Hs].
Qed.

Lemma acc_handle_is_Some st d id :
  store_ok (heap st) (playerStats st) →
  is_Some (acc (handle st d) id) ↔ refers id d = true ∨ is_Some (acc st id).
Proof.
  intros Hok. destruct d as [gs [e|e|e|]];
    try (split; [by right | by intros [|]]).
  rewrite acc_handle_kill.
  unfold counted, refers, kill_names. cbn [fst snd].
  pose proof (count_store_ok Player.incKills (events.Kill.Killer e) st
                incKills_labels Hok) as Hok1.
  pose proof (count_store_ok Player.incDeaths (events.Kill.Victim e) _
                incDeaths_labels Hok1) as Hok2.
  rewrite !acc_count_is_Some by done.
  rewrite !orb_true_iff, !bool_decide_eq_true. tauto.
Qed.

(** An identity has an accumulator exactly when some kill so far named it. *)
Lemma acc_is_Some_iff demoID es id :
  is_Some (acc (run es (initial demoID)) id) ↔ existsb (refers id) es = true.
Proof.
  induction es as [|d es IH] using rev_ind.
  { cbn. split; [by intros [? ?]|done]. }
  rewrite run_snoc, acc_handle_is_Some by apply reachable_store_ok.
  rewrite existsb_app, orb_true_iff, IH. cbn. rewrite orb_false_r. tauto.
Qed.

Lemma elem_of_drain st p :
  p ∈ drain st ↔ ∃ id, acc st id = Some p.
Proof.
  unfold drain, acc. rewrite list_elem_of_omap. split.
  - intros ([id l] & Hin & Hp). apply elem_of_map_to_list in Hin.
    exists id. by rewrite Hin.
  - intros (id & Hacc).
    destruct (playerStats st !! id) as [l|] eqn:Hl; [|done].
    exists (id, l). split; [by apply elem_of_map_to_list|done].
Qed.

End Counts.

Section Result.

Context `{Demoinfocs}.

Lemma acc_SteamID st id p :
  store_ok (heap st) (playerStats st) →
  acc st id = Some p → Player.SteamID p = Sprintf_d id.
Proof.
  intros [Hpts _] Hacc. unfold acc in Hacc.
  destruct (playerStats st !! id) as [l|] eqn:Hl; [|done]. cbn in Hacc.
  destruct (Hpts _ _ Hl) as (q & Hq & Hs). congruence.
Qed.

Lemma drain_acc st id p :
  store_ok (heap st) (playerStats st) →
  p ∈ drain st → Player.SteamID p = Sprintf_d id → acc st id = Some p.
Proof.
  intros Hok Hin Hs. apply elem_of_drain in Hin as (id' & Hacc).
  pose proof (acc_SteamID st id' p Hok Hacc) as Hs'.
  assert (id' = id) as <- by (apply Sprintf_d_inj; congruence). done.
Qed.

Lemma parseDemo_Ok demoID data p d :
  NewParser data = Returned p →
  parseDemo demoID data = Returned (Ok d) →
  existsb panics (ParserRun.dispatched p) = false
  ∧ ParserRun.ParseToEnd p = None
  ∧ d = finish (ParserRun.Header p)
          (run (ParserRun.dispatched p) (initial demoID)).
Proof.
  intros Hp Hd. apply parseDemo_Returned in Hd as (p' & Hp' & Hcalm & Hd).
  assert (p' = p) as -> by congruence.
  split; [done|]. destruct (ParserRun.ParseToEnd p); [done|].
  split; [done|]. by injection Hd as ->.
Qed.

Lemma run_DemoID es st :
  ParsedData.DemoID (parsed (run es st)) = ParsedData.DemoID (parsed st)
  ∧ ParsedData.Players (parsed (run es st)) = ParsedData.Players (parsed st).
Proof.
  revert st. induction es as [|d es IH]; intros st; [done|].
  rewrite run_cons. destruct (IH (handle st d)) as [-> ->].
  destruct d as [gs [e|e|e|]]; try done.
  unfold handle. cbn [fst snd]. rewrite onKill_counted.
  destruct (counted_control e st) as (Hp & _).
  destruct (events.Kill.Weapon e);
    cbn [parsed set_Events ParsedData.DemoID ParsedData.Players];
    by rewrite Hp.
Qed.

Lemma finish_Players header demoID es :
  ParsedData.Players (finish header (run es (initial demoID)))
  = drain (run es (initial demoID)).
Proof.
  unfold finish. cbn [ParsedData.Players].
  by destruct (run_DemoID es (initial demoID)) as [_ ->].
Qed.

Lemma well_labelled_count f x st :
  (∀ q, well_labelled q → well_labelled (f q)) →
  (∀ l q, heap st !! l = Some q → well_labelled q) →
  ∀ l q, heap (count f x st) !! l = Some q → well_labelled q.
Proof.
  intros Hf. apply (count_heap well_labelled well_labelled); [by auto|].
  intros p. apply Hf. unfold well_labelled, fresh_accumulator. cbn.
  split; [|done]. repeat case_decide; auto.
Qed.

Lemma well_labelled_run es st :
  (∀ l q, heap st !! l = Some q → well_labelled q) →
  ∀ l q, heap (run es st) !! l = Some q → well_labelled q.
Proof.
  revert st. induction es as [|d es IH]; intros st Hst; [done|].
  rewrite run_cons. apply IH.
  destruct d as [gs [e|e|e|]]; try done.
  unfold handle. cbn [fst snd]. destruct (onKill_store gs e st) as [-> _].
  unfold counted.
  repeat apply well_labelled_count; try done; by intros [].
Qed.

End Result.

(** X1.  In the state reached by a sequence of fewer than 2^63 - 1 events,
    an identity's kill count is the number of kills that named it as
    killer, its death count the number that named it as victim, and its
    assist count the number that named it as assister. *)
Theorem counts_are_exact `{Demoinfocs} demoID es id :
  Z.of_nat (length es) < GoInt.max_int →
  let st := run es (initial demoID) in
  kills_of st id = Z.of_nat (times_named events.Kill.Killer id es)
  ∧ deaths_of st id = Z.of_nat (times_named events.Kill.Victim id es)
  ∧ assists_of st id = Z.of_nat (times_named events.Kill.Assister id es).
Proof.
  intros Hlen st. subst st. repeat split.
  - apply (counter_exact kills_of); [done | | done].
    intros st d. apply kills_handle.
  - apply (counter_exact deaths_of); [done | | done].
    intros st d. apply deaths_handle.
  - apply (counter_exact assists_of); [done | | done].
    intros st d. apply assists_handle.
Qed.

Lemma counts_are_exact_witness :
  kills_of (@run plain_lib match_trace (initial "demo-1")) 11 = 3
  ∧ deaths_of (@run plain_lib match_trace (initial "demo-1")) 11 = 0
  ∧ assists_of (@run plain_lib match_trace (initial "demo-1")) 11 = 0.
Proof.
  destruct (@counts_are_exact plain_lib "demo-1" match_trace 11%N)
    as (Hk & Hd & Ha).
  - unfold GoInt.max_int. cbn. lia.
  - rewrite Hk, Hd, Ha. repeat split.
Defined.

(** X2.  An identity has an accumulator exactly when some kill processed
    so far named it as killer, victim or assister; an event that does not
    name it (a kill of other players, or any other event) leaves its
    accumulator, or its lack of one, as it was. *)
Theorem accumulators_are_the_named `{Demoinfocs} demoID es id :
  let st := run es (initial demoID) in
  (is_Some (acc st id) ↔ existsb (refers id) es = true)
  ∧ (∀ d, refers id d = false → acc (handle st d) id = acc st id).
Proof.
  intros st. split; [apply acc_is_Some_iff|].
  intros [gs [e|e|e|]] Hd; try done.
  rewrite acc_handle_kill.
  unfold refers, kill_names in Hd. cbn [fst snd] in Hd.
  apply orb_false_elim in Hd as [Hd Ha].
  apply orb_false_elim in Hd as [Hk Hv].
  apply bool_decide_eq_false in Hk, Hv, Ha.
  apply acc_counted_other; try done. apply reachable_store_ok.
Qed.

Lemma accumulators_are_the_named_witness :
  is_Some (acc (@run plain_lib match_trace (initial "demo-1")) 33)
  ∧ acc (@run plain_lib match_trace (initial "demo-1")) 44 = None.
Proof.
  destruct (@accumulators_are_the_named plain_lib "demo-1" match_trace 33%N)
    as [Hiff _].
  split; [by apply Hiff|reflexivity].
Defined.

(** X3.  In a result, the players are the identities the kills named: no
    identity twice, an entry for every identity named, none for any
    other, and each entry's counts are the numbers of kills that named
    its identity as killer, victim and assister. *)
Theorem result_players `{Demoinfocs} demoID data parser d :
  NewParser data = Returned parser →
  parseDemo demoID data = Returned (Ok d) →
  Z.of_nat (length (ParserRun.dispatched parser)) < GoInt.max_int →
  let es := ParserRun.dispatched parser in
  NoDup (Player.SteamID <$> ParsedData.Players d)
  ∧ (∀ id, existsb (refers id) es = true
           ↔ ∃ p, p ∈ ParsedData.Players d
                  ∧ Player.SteamID p = Sprintf_d id)
  ∧ (∀ id p,
       p ∈ ParsedData.Players d →
       Player.SteamID p = Sprintf_d id →
       Player.Kills p = Z.of_nat (times_named events.Kill.Killer id es)
       ∧ Player.Deaths p = Z.of_nat (times_named events.Kill.Victim id es)
       ∧ Player.Assists p
         = Z.of_nat (times_named events.Kill.Assister id es)).
Proof.
  intros Hnew Hd Hlen es. apply (parseDemo_Ok _ _ parser) in Hd as (_ & _ & ->);
    [|done].
  rewrite finish_Players. fold es.
  pose proof (reachable_store_ok demoID es) as Hok.
  split; [by apply drain_NoDup|]. split.
  - intros id. rewrite <- acc_is_Some_iff. split.
    + intros [p Hp]. exists p. split; [apply elem_of_drain; by exists id|].
      by apply (acc_SteamID (run es (initial demoID)) id).
    + intros (p & Hin & Hs). exists p. by apply drain_acc.
  - intros id p Hin Hs. pose proof (drain_acc _ id p Hok Hin Hs) as Hacc.
    assert (Player.Kills p = kills_of (run es (initial demoID)) id) as ->
      by (unfold kills_of; by rewrite Hacc).
    assert (Player.Deaths p = deaths_of (run es (initial demoID)) id) as ->
      by (unfold deaths_of; by rewrite Hacc).
    assert (Player.Assists p = assists_of (run es (initial demoID)) id) as ->
      by (unfold assists_of; by rewrite Hacc).
    repeat split.
    + apply (counter_exact kills_of); [done | | done].
      intros st d'. apply kills_handle.
    + apply (counter_exact deaths_of); [done | | done].
      intros st d'. apply deaths_handle.
    + apply (counter_exact assists_of); [done | | done].
      intros st d'. apply assists_handle.
Qed.

Lemma result_players_witness :
  ∃ d,
    @parseDemo match_lib "demo-1" demo_bytes = Returned (Ok d)
    ∧ NoDup (Player.SteamID <$> ParsedData.Players d)
    ∧ ∀ p, p ∈ ParsedData.Players d → Player.SteamID p = "11" →
           Player.Kills p = 3 ∧ Player.Deaths p = 0 ∧ Player.Assists p = 0.
Proof.
  eexists. split; [reflexivity|].
  destruct (@result_players match_lib "demo-1" demo_bytes _ _ eq_refl eq_refl)
    as (Hnd & _ & Hcounts).
  - unfold GoInt.max_int. cbn. lia.
  - split; [exact Hnd|]. intros p Hin Hs. exact (Hcounts 11%N p Hin Hs).
Defined.

(** X4.  Every player of a result has one of the team labels T, CT and
    spectator, zero ADR, HSP, KAST and rating, and an empty [Stats] bag. *)
Theorem result_players_well_labelled `{Demoinfocs} demoID data d :
  parseDemo demoID data = Returned (Ok d) →
  ∀ p, p ∈ ParsedData.Players d → well_labelled p.
Proof.
  intros Hd p Hin. apply parseDemo_Returned in Hd as (parser & Hnew & _ & Hd).
  destruct (ParserRun.ParseToEnd parser); [done|]. injection Hd as ->.
  rewrite finish_Players in Hin. unfold drain in Hin.
  apply list_elem_of_omap in Hin as ([id l] & _ & Hp).
  eapply well_labelled_run; [|exact Hp]. by intros [|?] q.
Qed.

Lemma result_players_well_labelled_witness :
  ∃ d,
    @parseDemo match_lib "demo-1" demo_bytes = Returned (Ok d)
    ∧ ∀ p, p ∈ ParsedData.Players d → well_labelled p.
Proof.
  eexists. split; [reflexivity|].
  exact (@result_players_well_labelled match_lib "demo-1" demo_bytes _
           eq_refl).
Defined.

(** ** The two logs *)

Section Logs.

Context `{Demoinfocs}.

Lemma handle_rounds st d :
  ParsedData.Rounds (parsed (handle st d))
  = ParsedData.Rounds (parsed st)
    ++ match d.2 with
       | EvRoundEnd e => [round_record st d.1 e]
       | _ => []
       end.
Proof.
  destruct d as [gs [e|e|e|]]; unfold handle; cbn [fst snd].
  - cbn. by rewrite app_nil_r.
  - done.
  - destruct (onKill_control gs e st) as (_ & _ & ->). by rewrite app_nil_r.
  - by rewrite app_nil_r.
Qed.

Lemma handle_events st d :
  ParsedData.Events (parsed (handle st d))
  = ParsedData.Events (parsed st)
    ++ match d.2 with
       | EvKill e =>
           match events.Kill.Weapon e with
           | Some weapon => [kill_record st d.1 e weapon]
           | None => []
           end
       | _ => []
       end.
Proof.
  destruct d as [gs [e|e|e|]]; unfold handle; cbn [fst snd].
  - cbn. by rewrite app_nil_r.
  - cbn. by rewrite app_nil_r.
  - apply onKill_events.
  - by rewrite app_nil_r.
Qed.

Lemma ends_cons d es :
  ends (d :: es) = (if is_round_end d then S (ends es) else ends es).
Proof.
  unfold ends. rewrite filter_cons. destruct (is_round_end d); by case_decide.
Qed.

Lemma kills_cons d es :
  kills (d :: es) = (if is_kill d then S (kills es) else kills es).
Proof.
  unfold kills. rewrite filter_cons. destruct (is_kill d); by case_decide.
Qed.

Lemma recorded_cons d es :
  recorded (d :: es)
  = (if is_recorded d then S (recorded es) else recorded es).
Proof.
  unfold recorded. rewrite filter_cons.
  destruct (is_recorded d); by case_decide.
Qed.

(** Where no handler panics, every kill is recorded. *)
Lemma recorded_calm es :
  existsb panics es = false → recorded es = kills es.
Proof.
  induction es as [|d es IH]; [done|]. cbn [existsb].
  intros [Hd Hes]%orb_false_elim.
  rewrite recorded_cons, kills_cons, IH by done.
  unfold is_recorded. rewrite Hd. by destruct (is_kill d).
Qed.

(** A run only appends to the logs: one round per round-end, one event
    per kill with a weapon. *)
Lemma run_rounds_tail es st :
  ∃ tail,
    ParsedData.Rounds (parsed (run es st))
    = ParsedData.Rounds (parsed st) ++ tail
    ∧ length tail = ends es.
Proof.
  revert st. induction es as [|d es IH]; intros st.
  { exists []. by rewrite app_nil_r. }
  rewrite run_cons. destruct (IH (handle st d)) as (tail & -> & Hlen).
  rewrite handle_rounds, ends_cons, <- app_assoc.
  eexists. split; [reflexivity|]. rewrite length_app, Hlen.
  by destruct d as [gs [e|e|e|]].
Qed.

Lemma run_events_tail es st :
  ∃ tail,
    ParsedData.Events (parsed (run es st))
    = ParsedData.Events (parsed st) ++ tail
    ∧ length tail = recorded es.
Proof.
  revert st. induction es as [|d es IH]; intros st.
  { exists []. by rewrite app_nil_r. }
  rewrite run_cons. destruct (IH (handle st d)) as (tail & -> & Hlen).
  rewrite handle_events, recorded_cons, <- app_assoc.
  eexists. split; [reflexivity|]. rewrite length_app, Hlen.
  destruct d as [gs [e|e|e|]]; try done.
  unfold is_recorded, is_kill, panics. cbn [fst snd andb negb].
  by destruct (events.Kill.Weapon e).
Qed.

Lemma length_rounds demoID es :
  length (ParsedData.Rounds (parsed (run es (initial demoID)))) = ends es.
Proof. by destruct (run_rounds_tail es (initial demoID)) as (tail & -> & <-). Qed.

Lemma length_events demoID es :
  length (ParsedData.Events (parsed (run es (initial demoID)))) = recorded es.
Proof. by destruct (run_events_tail es (initial demoID)) as (tail & -> & <-). Qed.

Lemma length_events_calm demoID es :
  existsb panics es = false →
  length (ParsedData.Events (parsed (run es (initial demoID)))) = kills es.
Proof. intros Hes. by rewrite length_events, recorded_calm. Qed.

Lemma ends_app es1 es2 : ends (es1 ++ es2) = (ends es1 + ends es2)%nat.
Proof. unfold ends. by rewrite filter_app, length_app. Qed.

Lemma kills_app es1 es2 : kills (es1 ++ es2) = (kills es1 + kills es2)%nat.
Proof. unfold kills. by rewrite filter_app, length_app. Qed.

Lemma starts_app es1 es2 : starts (es1 ++ es2) = (starts es1 + starts es2)%nat.
Proof. unfold starts. by rewrite filter_app, length_app. Qed.

(** The record of the dispatch that follows [pre] sits at the position
    given by the number of like dispatches in [pre]. *)
Lemma rounds_at demoID pre gs e post :
  ParsedData.Rounds
    (parsed (run (pre ++ (gs, EvRoundEnd e) :: post) (initial demoID)))
  !! ends pre
  = Some (round_record (run pre (initial demoID)) gs e).
Proof.
  rewrite run_app, run_cons.
  destruct (run_rounds_tail post
              (handle (run pre (initial demoID)) (gs, EvRoundEnd e)))
    as (tail & -> & _).
  rewrite handle_rounds. cbn [fst snd].
  rewrite <- app_assoc, lookup_app_r by (rewrite length_rounds; lia).
  by rewrite length_rounds, Nat.sub_diag.
Qed.

Lemma events_at demoID pre gs e weapon post :
  events.Kill.Weapon e = Some weapon →
  ParsedData.Events
    (parsed (run (pre ++ (gs, EvKill e) :: post) (initial demoID)))
  !! recorded pre
  = Some (kill_record (run pre (initial demoID)) gs e weapon).
Proof.
  intros Hw. rewrite run_app, run_cons.
  destruct (run_events_tail post
              (handle (run pre (initial demoID)) (gs, EvKill e)))
    as (tail & -> & _).
  rewrite handle_events. cbn [fst snd]. rewrite Hw.
  rewrite <- app_assoc, lookup_app_r by (rewrite length_events; lia).
  by rewrite length_events, Nat.sub_diag.
Qed.

(** The stored start tick is the tick of the last round-start. *)
Lemma startTick_last demoID es :
  startTick (run es (initial demoID)) = last_start_tick es.
Proof.
  induction es as [|d es IH] using rev_ind; [done|].
  rewrite run_snoc. unfold last_start_tick. rewrite reverse_snoc.
  cbn [list_find]. case_decide as Hd.
  - destruct d as [gs [e|e|e|]]; try discriminate Hd. done.
  - assert (is_round_start d = false) as Hd' by by destruct (is_round_start d).
    destruct (handle_not_start (run es (initial demoID)) d Hd') as [_ ->].
    rewrite IH. unfold last_start_tick.
    by destruct (list_find _ (reverse es)) as [[i d']|].
Qed.

Lemma counter_is_starts demoID es :
  Z.of_nat (starts es) <= GoInt.max_int →
  currentRound (run es (initial demoID)) = Z.of_nat (starts es).
Proof.
  intros Hs. rewrite run_counter; cbn [initial currentRound]; lia.
Qed.

Lemma never_decrease_snoc ns top :
  0 <= top → never_decrease ns top → never_decrease (ns ++ [top]) top.
Proof.
  intros Htop Hns i j a b Hij Ha Hb.
  apply lookup_snoc_Some in Ha as [[Hi Ha] | [-> <-]];
    apply lookup_snoc_Some in Hb as [[Hj Hb] | [-> <-]].
  - by apply (Hns i j).
  - destruct (Hns i i a a ltac:(lia) Ha Ha) as (? & ? & ?). lia.
  - lia.
  - lia.
Qed.

Lemma never_decrease_raise ns top top' :
  top <= top' → never_decrease ns top → never_decrease ns top'.
Proof.
  intros Htop Hns i j a b Hij Ha Hb.
  destruct (Hns i j a b Hij Ha Hb) as (? & ? & ?). lia.
Qed.

Lemma logs_never_decrease demoID es :
  Z.of_nat (starts es) <= GoInt.max_int →
  never_decrease
    (Round.RoundNumber <$> ParsedData.Rounds (parsed (run es (initial demoID))))
    (Z.of_nat (starts es))
  ∧ never_decrease
      (GameEvent.RoundNumber
         <$> ParsedData.Events (parsed (run es (initial demoID))))
      (Z.of_nat (starts es)).
Proof.
  induction es as [|d es IH] using rev_ind; intros Hs.
  { split; intros i j a b _ Ha; by destruct i. }
  rewrite starts_app in Hs.
  destruct IH as [IHr IHe]; [lia|].
  pose proof (counter_is_starts demoID es ltac:(lia)) as Hc.
  rewrite run_snoc, handle_rounds, handle_events, !fmap_app, starts_app.
  unfold starts at 2 4. rewrite filter_cons, filter_nil.
  destruct d as [gs [e|e|e|]]; cbn [fst snd is_round_start fmap list_fmap];
    rewrite ?app_nil_r; case_decide; try done; cbn [length];
    rewrite ?Nat.add_0_r.
  - split; eapply never_decrease_raise; try eassumption; lia.
  - split; [|done]. unfold round_record. cbn [Round.RoundNumber].
    rewrite Hc. apply never_decrease_snoc; [lia|done].
  - split; [done|]. destruct (events.Kill.Weapon e) as [weapon|];
      cbn [fmap list_fmap]; [|by rewrite app_nil_r].
    unfold kill_record. cbn [GameEvent.RoundNumber].
    rewrite Hc. apply never_decrease_snoc; [lia|done].
  - done.
Qed.

Lemma killEventData_lookups e weapon :
  killEventData e weapon !! "killer"
  = Some (AString match events.Kill.Killer e with
                  | Some killer => common.Player.Name killer
                  | None => "unknown"
                  end)
  ∧ killEventData e weapon !! "victim"
    = Some (AString match events.Kill.Victim e with
                    | Some victim => common.Player.Name victim
                    | None => "unknown"
                    end)
  ∧ killEventData e weapon !! "weapon" = Some (AString (GoString weapon))
  ∧ killEventData e weapon !! "isHeadshot"
    = Some (ABool (events.Kill.IsHeadshot e))
  ∧ killEventData e weapon !! "penetrated"
    = Some (AInt (events.Kill.PenetratedObjects e)).
Proof.
  unfold killEventData.
  by destruct (events.Kill.Killer e), (events.Kill.Victim e).
Qed.

End Logs.

(** X5.  Take a kill dispatched after events on which no handler
    panicked.  The event log then holds one record per kill before it.
    If the kill has a weapon, its handler appends one record: tagged
    kill, with the tick of the dispatch, the number of round-starts
    before it (while that fits an [int]), the name of the killer and of
    the victim as the kill carries them ("unknown" for an absent player),
    the weapon's string, the headshot flag and the penetration count; and
    after any further events on which no handler panics, the log holds
    one record per kill, this one at the position given by the number of
    kills before it.  If the kill has no weapon, its handler panics and
    the log stays as it was. *)
Theorem event_log_follows_kills `{Demoinfocs} demoID pre gs e :
  existsb panics pre = false →
  Z.of_nat (starts pre) <= GoInt.max_int →
  let before := ParsedData.Events (parsed (run pre (initial demoID))) in
  let after :=
    ParsedData.Events
      (parsed (run (pre ++ [(gs, EvKill e)]) (initial demoID))) in
  length before = kills pre
  ∧ match events.Kill.Weapon e with
    | Some weapon =>
        panics (gs, EvKill e) = false
        ∧ ∃ ev,
            after = before ++ [ev]
            ∧ GameEvent.EventType ev = "kill"
            ∧ GameEvent.Tick ev = GameState.IngameTick gs
            ∧ GameEvent.RoundNumber ev = Z.of_nat (starts pre)
            ∧ GameEvent.EventData ev !! "killer"
              = Some (AString match events.Kill.Killer e with
                              | Some killer => common.Player.Name killer
                              | None => "unknown"
                              end)
            ∧ GameEvent.EventData ev !! "victim"
              = Some (AString match events.Kill.Victim e with
                              | Some victim => common.Player.Name victim
                              | None => "unknown"
                              end)
            ∧ GameEvent.EventData ev !! "weapon"
              = Some (AString (GoString weapon))
            ∧ GameEvent.EventData ev !! "isHeadshot"
              = Some (ABool (events.Kill.IsHeadshot e))
            ∧ GameEvent.EventData ev !! "penetrated"
              = Some (AInt (events.Kill.PenetratedObjects e))
            ∧ ∀ post,
                existsb panics post = false →
                let es := pre ++ (gs, EvKill e) :: post in
                let log :=
                  ParsedData.Events (parsed (run es (initial demoID))) in
                length log = kills es ∧ log !! kills pre = Some ev
    | None =>
        panics (gs, EvKill e) = true ∧ after = before
    end.
Proof.
  intros Hpre Hs before after.
  split; [by apply length_events_calm|].
  assert (panics (gs, EvKill e)
          = match events.Kill.Weapon e with Some _ => false | None => true end)
    as -> by done.
  unfold after, before. rewrite run_snoc, handle_events. cbn [fst snd].
  destruct (events.Kill.Weapon e) as [weapon|] eqn:Hw;
    [|by rewrite app_nil_r].
  split; [done|].
  exists (kill_record (run pre (initial demoID)) gs e weapon).
  split; [done|]. split; [done|]. split; [done|].
  split; [by apply counter_is_starts|].
  destruct (killEventData_lookups e weapon) as (Hk & Hv & Hwp & Hh & Hpn).
  do 5 (split; [done|]).
  intros post Hpost. cbv zeta. split.
  - apply length_events_calm.
    rewrite existsb_app. cbn [existsb]. rewrite Hpre, Hpost.
    unfold panics. cbn [snd]. by rewrite Hw.
  - rewrite <- (recorded_calm pre) by done. by apply events_at.
Qed.

Lemma event_log_follows_kills_witness :
  (∃ ev,
     ParsedData.Events (parsed (@run plain_lib match_trace (initial "demo-1")))
     !! 2%nat = Some ev
     ∧ GameEvent.Tick ev = 1600
     ∧ GameEvent.RoundNumber ev = 2
     ∧ GameEvent.EventData ev !! "killer" = Some (AString "kay2")
     ∧ GameEvent.EventData ev !! "victim" = Some (AString "ace")
     ∧ GameEvent.EventData ev !! "weapon" = Some (AString "9"))
  ∧ ParsedData.Events
      (parsed (@run plain_lib
                 ([(at_tick 5, EvKill sample_kill)]
                  ++ [(at_tick 7, EvKill unarmed_kill)])
                 (initial "demo-1")))
    = ParsedData.Events
        (parsed (@run plain_lib [(at_tick 5, EvKill sample_kill)]
                   (initial "demo-1"))).
Proof.
  destruct (@event_log_follows_kills plain_lib "demo-1"
              [ sample_start 100 0; (at_tick 150, EvKill sample_kill);
                (at_tick 180, EvKill assisted_kill); sample_end 1380;
                sample_start 1500 1 ]
              (at_tick 1600) switched_kill eq_refl)
    as (_ & _ & ev & _ & _ & Ht & Hn & Hk & Hv & Hw & _ & _ & Hpost).
  { by vm_compute. }
  destruct (Hpost [sample_end 2780] eq_refl) as (_ & Hev).
  destruct (@event_log_follows_kills plain_lib "demo-1"
              [(at_tick 5, EvKill sample_kill)] (at_tick 7) unarmed_kill
              eq_refl)
    as (_ & _ & Hsame).
  { by vm_compute. }
  split; [|exact Hsame].
  exists ev. split; [exact Hev|]. split; [exact Ht|].
  split; [exact Hn|]. split; [exact Hk|]. split; [exact Hv | exact Hw].
Defined.

(** X6.  The round log has one record per round-end, in dispatch order.
    The record of a round-end sits at the position given by the number of
    round-ends before it; its number is the number of round-starts before
    it (while that fits an [int]), its scores are those of the game state
    at the round-end, and its duration is measured from the tick of the
    last round-start before it, or from 0 if there is none. *)
Theorem round_log_follows_round_ends `{Demoinfocs} demoID pre gs e post :
  Z.of_nat (starts pre) <= GoInt.max_int →
  let es := pre ++ (gs, EvRoundEnd e) :: post in
  let log := ParsedData.Rounds (parsed (run es (initial demoID))) in
  length log = ends es
  ∧ log !! ends pre
    = Some (Round.mk (Z.of_nat (starts pre))
              (GoString (events.RoundEnd.Winner e))
              (GoString (events.RoundEnd.Reason e))
              (GameState.CT_Score gs) (GameState.T_Score gs)
              (GoInt.quot
                 (GoInt.sub (GameState.IngameTick gs) (last_start_tick pre))
                 128)
              ∅).
Proof.
  intros Hs es log. split; [apply length_rounds|].
  unfold log, es. rewrite rounds_at. unfold round_record.
  by rewrite counter_is_starts, startTick_last.
Qed.

Lemma round_log_follows_round_ends_witness :
  ∃ r,
    ParsedData.Rounds (parsed (@run plain_lib match_trace (initial "demo-1")))
    !! 1%nat = Some r
    ∧ Round.RoundNumber r = 2
    ∧ Round.DurationSeconds r = 10.
Proof.
  destruct (@round_log_follows_round_ends plain_lib "demo-1"
              [ sample_start 100 0; (at_tick 150, EvKill sample_kill);
                (at_tick 180, EvKill assisted_kill); sample_end 1380;
                sample_start 1500 1; (at_tick 1600, EvKill switched_kill) ]
              (sample_end 2780).1
              (events.RoundEnd.mk "" (events.RoundEndReason.mk 8)
                 common.TeamTerrorists) [])
    as (_ & Hr).
  - by vm_compute.
  - eexists. split; [exact Hr|]. split; reflexivity.
Defined.

(** X7.  The logs are append-only: the rounds and events recorded after a
    prefix of the sequence are still there, unchanged and in place, after
    the whole sequence. *)
Theorem logs_are_append_only `{Demoinfocs} demoID pre post :
  ParsedData.Rounds (parsed (run pre (initial demoID)))
    `prefix_of` ParsedData.Rounds (parsed (run (pre ++ post) (initial demoID)))
  ∧ ParsedData.Events (parsed (run pre (initial demoID)))
      `prefix_of`
      ParsedData.Events (parsed (run (pre ++ post) (initial demoID))).
Proof.
  rewrite run_app. split.
  - destruct (run_rounds_tail post (run pre (initial demoID)))
      as (tail & -> & _). by exists tail.
  - destruct (run_events_tail post (run pre (initial demoID)))
      as (tail & -> & _). by exists tail.
Qed.

(** X8.  While the number of round-starts fits an [int], round numbers
    never decrease along the round log nor along the event log, and every
    one of them lies between 0 and the number of round-starts. *)
Theorem round_numbers_never_decrease `{Demoinfocs} demoID es :
  Z.of_nat (starts es) <= GoInt.max_int →
  let st := run es (initial demoID) in
  never_decrease (Round.RoundNumber <$> ParsedData.Rounds (parsed st))
    (Z.of_nat (starts es))
  ∧ never_decrease (GameEvent.RoundNumber <$> ParsedData.Events (parsed st))
      (Z.of_nat (starts es)).
Proof. intros Hs st. by apply logs_never_decrease. Qed.

Lemma round_numbers_never_decrease_witness :
  never_decrease
    (Round.RoundNumber
       <$> ParsedData.Rounds
             (parsed (@run plain_lib match_trace (initial "demo-1"))))
    2.
Proof.
  destruct (@round_numbers_never_decrease plain_lib "demo-1" match_trace)
    as [Hr _].
  - by vm_compute.
  - exact Hr.
Defined.

(** ** [getOrCreatePlayer], called again *)

(** X9.  A second [getOrCreatePlayer] for the same identity, whatever
    name and team the reference then carries, returns the pointer of the
    first call and changes neither the map nor any accumulator.  The first
    call keeps every accumulator and every map entry that existed, adds at
    most one of each, and returns the pointer the map holds for the
    identity. *)
Theorem getOrCreatePlayer_again h stats p p' :
  common.Player.SteamID64 p' = common.Player.SteamID64 p →
  let r := getOrCreatePlayer h stats (Some p) in
  getOrCreatePlayer r.1.1 r.1.2 (Some p') = r
  ∧ h `prefix_of` r.1.1
  ∧ (length r.1.1 ≤ S (length h))%nat
  ∧ stats ⊆ r.1.2
  ∧ is_Some r.2
  ∧ r.1.2 !! common.Player.SteamID64 p = r.2.
Proof.
  intros Hid r. subst r. unfold getOrCreatePlayer. rewrite Hid.
  destruct (stats !! common.Player.SteamID64 p) as [l|] eqn:Hl;
    cbn [fst snd].
  - rewrite Hl. split_and!; [done | done | lia | done | by eexists | done].
  - rewrite lookup_insert_eq.
    split_and!; [done | | | | by eexists | done].
    + by apply prefix_app_r.
    + rewrite length_app. cbn. lia.
    + by apply insert_subseteq.
Qed.

Lemma getOrCreatePlayer_again_witness :
  getOrCreatePlayer
    (getOrCreatePlayer [] ∅
       (Some (common.Player.mk 11 "kay" common.TeamTerrorists))).1.1
    (getOrCreatePlayer [] ∅
       (Some (common.Player.mk 11 "kay" common.TeamTerrorists))).1.2
    (Some kay_switched)
  = getOrCreatePlayer [] ∅
      (Some (common.Player.mk 11 "kay" common.TeamTerrorists)).
Proof.
  exact (proj1 (getOrCreatePlayer_again [] ∅
                  (common.Player.mk 11 "kay" common.TeamTerrorists)
                  kay_switched eq_refl)).
Defined.

(** ** The two outgoing calls *)

(** Along a chain of redirects there is one request per redirect, sent to
    the location the redirect names. *)
Lemma followed_length req hops : length (followed req hops) = length hops.
Proof.
  revert req. induction hops as [|h hops IH]; intros req; [done|].
  cbn [followed length]. by rewrite IH.
Qed.

Lemma follow_target req h :
  HttpRequest.URL (follow req h) = Hop.Location h
  ∧ HttpRequest.Header (follow req h) = Hop.Header h.
Proof. unfold follow. by destruct (Hop.Status h). Qed.

Lemma followed_lookup req hops k h :
  hops !! k = Some h →
  ∃ q, followed req hops !! k = Some q
       ∧ HttpRequest.URL q = Hop.Location h
       ∧ HttpRequest.Header q = Hop.Header h.
Proof.
  revert req k. induction hops as [|h' hops IH]; intros req k Hk; [done|].
  destruct k as [|k]; cbn [followed].
  - injection Hk as ->. exists (follow req h). split; [done|].
    apply follow_target.
  - apply (IH (follow req h') k Hk).
Qed.

(** A GET without body stays one along every chain. *)
Lemma followed_get_nobody req hops :
  HttpRequest.Method req = "GET" → HttpRequest.Body req = [] →
  Forall (λ q, HttpRequest.Method q = "GET" ∧ HttpRequest.Body q = [])
    (followed req hops).
Proof.
  revert req. induction hops as [|h hops IH]; intros req Hm Hb; [constructor|].
  assert (HttpRequest.Method (follow req h) = "GET"
          ∧ HttpRequest.Body (follow req h) = []) as [Hm' Hb'].
  { split; [by apply follow_get|]. unfold follow.
    by destruct (Hop.Status h). }
  cbn [followed]. constructor; [done|]. by apply IH.
Qed.

(** Redirects 307 and 308 repeat the method and the body. *)
Lemma followed_repeats req hops :
  Forall repeats hops →
  Forall (λ q, HttpRequest.Method q = HttpRequest.Method req
               ∧ HttpRequest.Body q = HttpRequest.Body req)
    (followed req hops).
Proof.
  revert req. induction hops as [|h hops IH]; intros req Hh; [constructor|].
  apply Forall_cons in Hh as [Hr Hh].
  assert (HttpRequest.Method (follow req h) = HttpRequest.Method req
          ∧ HttpRequest.Body (follow req h) = HttpRequest.Body req)
    as [Hm Hb].
  { unfold follow. by destruct Hr as [-> | ->]. }
  cbn [followed]. constructor; [done|].
  specialize (IH (follow req h) Hh). by rewrite Hm, Hb in IH.
Qed.

(** Any other redirect of a POST turns it, and all that follow, into a
    GET without body. *)
Lemma followed_turns req h hops :
  ¬ repeats h →
  HttpRequest.Method req = "POST" →
  Forall (λ q, HttpRequest.Method q = "GET" ∧ HttpRequest.Body q = [])
    (followed req (h :: hops)).
Proof.
  intros Hr Hm.
  assert (HttpRequest.Method (follow req h) = "GET"
          ∧ HttpRequest.Body (follow req h) = []) as [Hm' Hb'].
  { unfold follow, repeats in *.
    destruct (Hop.Status h); cbn [HttpRequest.Method HttpRequest.Body];
      try (by rewrite Hm, decide_False by (by intros [|]));
      exfalso; apply Hr; by auto. }
  cbn [followed]. constructor; [done|]. by apply followed_get_nobody.
Qed.

Lemma sent_Sent qs : sent (Sent <$> qs) = qs.
Proof. induction qs as [|q qs IH]; [done|]. cbn. by f_equal. Qed.

Section Calls.

Context (W : World).

(** [downloadDemo], path by path. *)
Lemma downloadDemo_paths filePath :
  downloadDemo W filePath
  = let req := download_request W filePath in
    match NewRequest_error W "GET" (HttpRequest.URL req) with
    | Some err => (Err err, [])
    | None =>
        (match (client_Do W req).2 with
         | Err err => Err err
         | Ok resp =>
             if decide (HttpResponse.StatusCode resp ≠ StatusOK)
             then Err ("failed to download demo: status "
                       +:+ pretty (HttpResponse.StatusCode resp))
             else match HttpResponse.ReadAll resp with
                  | (_, Some err) => Err err
                  | (body, None) => Ok body
                  end
         end, Sent <$> requests_of W req)
    end.
Proof.
  unfold downloadDemo, download_request, requests_of. cbv zeta.
  cbn [HttpRequest.URL].
  destruct (NewRequest_error W "GET" _); [done|].
  unfold mbind, IO_bind, client_do, mret, IO_ret.
  destruct (client_Do W _) as [hops [resp|err]]; cbn [fst snd];
    [|by rewrite app_nil_r].
  case_decide; [by rewrite app_nil_r|].
  destruct (HttpResponse.ReadAll resp) as [body [err|]]; by rewrite app_nil_r.
Qed.

(** [sendToWebhook], path by path. *)
Lemma sendToWebhook_paths data :
  sendToWebhook W data
  = match json_Marshal W data with
    | Err err => (Some err, [])
    | Ok jsonData =>
        let req := webhook_request W jsonData in
        match NewRequest_error W "POST" (HttpRequest.URL req) with
        | Some err => (Some err, [])
        | None =>
            (match (client_Do W req).2 with
             | Err err => Some err
             | Ok resp =>
                 if decide (HttpResponse.StatusCode resp ≠ StatusOK)
                 then Some ("webhook returned status "
                            +:+ pretty (HttpResponse.StatusCode resp)
                            +:+ ": "
                            +:+ string_of_list_byte
                                  (HttpResponse.ReadAll resp).1)
                 else None
             end, Sent <$> requests_of W req)
        end
    end.
Proof.
  unfold sendToWebhook, webhook_request, requests_of. cbv zeta.
  cbn [HttpRequest.URL].
  destruct (json_Marshal W data) as [jsonData|err]; [|done].
  destruct (NewRequest_error W "POST" _); [done|].
  unfold mbind, IO_bind, client_do, mret, IO_ret.
  destruct (client_Do W _) as [hops [resp|err]]; cbn [fst snd];
    [|by rewrite app_nil_r].
  case_decide; by rewrite app_nil_r.
Qed.

End Calls.

(** X10.  [downloadDemo] sends nothing if the URL is refused.  Otherwise
    it sends a GET of the file under the storage's [demos] bucket with the
    service-role key as bearer token and then, for every redirect the
    client follows, a GET without body to the location that redirect
    names.  It returns a body exactly when the last answer is a 200 read
    to its end, and the body is then the one read. *)
Theorem downloadDemo_succeeds_iff W filePath :
  let req := download_request W filePath in
  let out := downloadDemo W filePath in
  let hops := (client_Do W req).1 in
  HttpRequest.Method req = "GET"
  ∧ HttpRequest.URL req
    = Getenv W "SUPABASE_URL" +:+ "/storage/v1/object/demos/" +:+ filePath
  ∧ HttpRequest.Header req !! "Authorization"
    = Some ("Bearer " +:+ Getenv W "SUPABASE_SERVICE_ROLE_KEY")
  ∧ out.2 = match NewRequest_error W "GET" (HttpRequest.URL req) with
            | Some _ => []
            | None => Sent <$> req :: followed req hops
            end
  ∧ length (followed req hops) = length hops
  ∧ Forall (λ q, HttpRequest.Method q = "GET" ∧ HttpRequest.Body q = [])
      (followed req hops)
  ∧ (∀ k h, hops !! k = Some h →
            ∃ q, followed req hops !! k = Some q
                 ∧ HttpRequest.URL q = Hop.Location h
                 ∧ HttpRequest.Header q = Hop.Header h)
  ∧ ∀ body,
      out.1 = Ok body
      ↔ NewRequest_error W "GET" (HttpRequest.URL req) = None
        ∧ ∃ resp,
            (client_Do W req).2 = Ok resp
            ∧ HttpResponse.StatusCode resp = StatusOK
            ∧ HttpResponse.ReadAll resp = (body, None).
Proof.
  intros req out hops. subst out. rewrite downloadDemo_paths. cbv zeta.
  fold req. unfold requests_of. fold hops.
  split; [done|]. split; [done|]. split; [done|].
  split; [by destruct (NewRequest_error W "GET" (HttpRequest.URL req))|].
  split; [apply followed_length|].
  split; [by apply followed_get_nobody|].
  split; [intros k h; apply followed_lookup|].
  destruct (NewRequest_error W "GET" (HttpRequest.URL req)) as [e|];
    cbn [fst snd].
  { intros body. split; [done|]. by intros [? _]. }
  intros body.
  destruct (client_Do W req).2 as [resp|err].
  - case_decide as Hst.
    + split; [done|]. intros (_ & resp' & [= <-] & Hok & _). done.
    + destruct (HttpResponse.ReadAll resp) as [b [err|]] eqn:Hread.
      * split; [done|]. intros (_ & resp' & [= <-] & _ & Hr). congruence.
      * split.
        -- intros [= <-]. split; [done|]. by exists resp.
        -- intros (_ & resp' & [= <-] & _ & Hr). congruence.
  - split; [done|]. by intros (_ & resp' & [=] & _).
Qed.

(** X11.  [sendToWebhook] sends nothing if the result cannot be
    marshalled or the URL is refused.  Otherwise it sends a POST of the
    marshalled result to the webhook, as JSON, with the service secret as
    bearer token, and then one request per redirect the client follows,
    to the location that redirect names: while the redirects are 307 or
    308 the result is posted again, and from any other redirect on the
    requests are GETs without body.  It returns no error exactly when the
    last answer is a 200. *)
Theorem sendToWebhook_succeeds_iff W data :
  let out := sendToWebhook W data in
  (∀ err, json_Marshal W data = Err err → out = (Some err, []))
  ∧ (∀ jsonData,
       json_Marshal W data = Ok jsonData →
       let req := webhook_request W jsonData in
       let hops := (client_Do W req).1 in
       HttpRequest.Method req = "POST"
       ∧ HttpRequest.URL req = Getenv W "WEBHOOK_URL"
       ∧ HttpRequest.Body req = jsonData
       ∧ HttpRequest.Header req !! "Content-Type" = Some "application/json"
       ∧ HttpRequest.Header req !! "Authorization"
         = Some ("Bearer " +:+ Getenv W "GO_SERVICE_SECRET")
       ∧ out.2 = match NewRequest_error W "POST" (HttpRequest.URL req) with
                 | Some _ => []
                 | None => Sent <$> req :: followed req hops
                 end
       ∧ length (followed req hops) = length hops
       ∧ (∀ k h, hops !! k = Some h →
                 ∃ q, followed req hops !! k = Some q
                      ∧ HttpRequest.URL q = Hop.Location h
                      ∧ HttpRequest.Header q = Hop.Header h)
       ∧ (Forall repeats hops →
          Forall (λ q, HttpRequest.Method q = "POST"
                       ∧ HttpRequest.Body q = jsonData)
            (followed req hops))
       ∧ (∀ h rest, hops = h :: rest → ¬ repeats h →
          Forall (λ q, HttpRequest.Method q = "GET"
                       ∧ HttpRequest.Body q = [])
            (followed req hops))
       ∧ (out.1 = None
          ↔ NewRequest_error W "POST" (HttpRequest.URL req) = None
            ∧ ∃ resp,
                (client_Do W req).2 = Ok resp
                ∧ HttpResponse.StatusCode resp = StatusOK)).
Proof.
  intros out. subst out. rewrite sendToWebhook_paths. split.
  { by intros err ->. }
  intros jsonData -> req hops. cbv zeta. fold req. unfold requests_of.
  fold hops.
  split; [done|]. split; [done|]. split; [done|]. split; [done|].
  split; [done|].
  split; [by destruct (NewRequest_error W "POST" (HttpRequest.URL req))|].
  split; [apply followed_length|].
  split; [intros k h; apply followed_lookup|].
  split; [intros Hh; by apply (followed_repeats req hops)|].
  split; [intros h rest -> Hh; by apply followed_turns|].
  destruct (NewRequest_error W "POST" (HttpRequest.URL req)) as [e|];
    cbn [fst snd].
  { split; [done|]. by intros [? _]. }
  destruct (client_Do W req).2 as [resp|err].
  - case_decide as Hst.
    + split; [done|]. intros (_ & resp' & [= <-] & Hok). done.
    + split; [|done].
      intros _. split; [done|]. by exists resp.
  - split; [done|]. by intros (_ & resp' & [=] & _).
Qed.

Lemma sendToWebhook_succeeds_iff_witness :
  (sendToWebhook redirecting_world
     (ParsedData.mk "demo-1" [] [] [] (Metadata.mk "" 0 0))).1 = None
  ∧ sent (sendToWebhook redirecting_world
            (ParsedData.mk "demo-1" [] [] [] (Metadata.mk "" 0 0))).2
    = [ webhook_request redirecting_world (list_byte_of_string "{}");
        HttpRequest.mk "POST" "https://hook.example/v2"
          (HttpRequest.Header
             (webhook_request redirecting_world (list_byte_of_string "{}")))
          (list_byte_of_string "{}") ].
Proof.
  destruct (sendToWebhook_succeeds_iff redirecting_world
              (ParsedData.mk "demo-1" [] [] [] (Metadata.mk "" 0 0)))
    as [_ Hok].
  destruct (Hok (list_byte_of_string "{}") eq_refl)
    as (_ & _ & _ & _ & _ & Hsent & _ & _ & _ & _ & Hiff).
  split.
  - apply Hiff. split; [reflexivity|]. eexists. split; reflexivity.
  - rewrite Hsent. reflexivity.
Defined.

Lemma downloadDemo_succeeds_iff_witness :
  (downloadDemo redirecting_world "uploads/demo-1.dem").1 = Ok demo_bytes
  ∧ sent (downloadDemo redirecting_world "uploads/demo-1.dem").2
    = [ download_request redirecting_world "uploads/demo-1.dem";
        HttpRequest.mk "GET" "https://cdn.example/demo-1.dem" ∅ [] ].
Proof.
  destruct (downloadDemo_succeeds_iff redirecting_world "uploads/demo-1.dem")
    as (_ & _ & _ & Hsent & _ & _ & _ & Hiff).
  split.
  - apply Hiff. split; [reflexivity|]. eexists. repeat split.
  - rewrite Hsent. reflexivity.
Defined.

(** ** The handler, end to end *)

Section EndToEnd.

Context `{Demoinfocs} (W : World).

Lemma sent_app efs1 efs2 : sent (efs1 ++ efs2) = sent efs1 ++ sent efs2.
Proof. apply omap_app. Qed.

(** The requests [parseHandler] sends: those of the download and then,
    if the download succeeded and [parseDemo] returned a result, those of
    the delivery. *)
Lemma parseHandler_sent w r :
  sent (parseHandler W w r).2
  = if decide (Request.Method r ≠ MethodPost) then []
    else
      match json_Decode W (Request.Body r) with
      | Err _ => []
      | Ok req =>
          let dl := downloadDemo W (ParseRequest.FilePath req) in
          sent dl.2
          ++ match dl.1 with
             | Err _ => []
             | Ok demoData =>
                 match parseDemo (ParseRequest.DemoID req) demoData with
                 | Returned (Ok parsedData) =>
                     sent (sendToWebhook W parsedData).2
                 | _ => []
                 end
             end
      end.
Proof.
  rewrite parseHandler_paths. case_decide; [done|].
  destruct (json_Decode W (Request.Body r)) as [req|err]; [|done].
  cbv zeta.
  destruct (downloadDemo W (ParseRequest.FilePath req)) as [[demoData|err] e1];
    cbn [fst snd].
  - destruct (parseDemo (ParseRequest.DemoID req) demoData) as [[pd|err]|];
      cbn [fst snd].
    + destruct (sendToWebhook W pd) as [[err|] e2]; cbn [fst snd].
      * change (?a :: ?l) with ([a] ++ l).
        rewrite !sent_app. cbn. by rewrite app_nil_r.
      * change (?a :: ?l) with ([a] ++ l). by rewrite !sent_app.
    + change (?a :: ?l) with ([a] ++ l). by rewrite !sent_app.
    + change (?a :: ?l) with ([a] ++ l). rewrite !sent_app. cbn.
      by rewrite app_nil_r.
  - change (?a :: ?l) with ([a] ++ l). rewrite !sent_app. cbn.
    by rewrite !app_nil_r.
Qed.

Lemma downloadDemo_sent filePath :
  sent (downloadDemo W filePath).2 = []
  ∨ sent (downloadDemo W filePath).2
    = requests_of W (download_request W filePath).
Proof.
  rewrite downloadDemo_paths. cbv zeta.
  destruct (NewRequest_error W "GET" _); [by left | right].
  apply sent_Sent.
Qed.

Lemma sendToWebhook_sent data :
  sent (sendToWebhook W data).2 = []
  ∨ ∃ jsonData,
      json_Marshal W data = Ok jsonData
      ∧ sent (sendToWebhook W data).2
        = requests_of W (webhook_request W jsonData).
Proof.
  rewrite sendToWebhook_paths.
  destruct (json_Marshal W data) as [jsonData|err]; [|by left]. cbv zeta.
  destruct (NewRequest_error W "POST" _); [by left|].
  right. exists jsonData. split; [done|]. apply sent_Sent.
Qed.

Lemma http_Error_status w msg code :
  ResponseWriter.Status w = None →
  ResponseWriter.Status (http_Error w msg code) = Some code.
Proof. unfold http_Error, ResponseWriter.Write, ResponseWriter.WriteHeader.
  cbn. by intros ->. Qed.

End EndToEnd.

Lemma downloadDemo_Ok_sent W filePath demoData :
  (downloadDemo W filePath).1 = Ok demoData →
  sent (downloadDemo W filePath).2
  = requests_of W (download_request W filePath).
Proof.
  rewrite downloadDemo_paths. cbv zeta.
  destruct (NewRequest_error W "GET" _); [done|]. intros _. apply sent_Sent.
Qed.

(** X12.  When the last answer to the download, after the redirects the
    client followed, has a status other than 200, the caller of [/parse]
    gets a 500 whose plain-text body names that status.  The requests sent
    are the download request and one GET per redirect followed; nothing
    is posted. *)
Theorem storage_rejection_surfaces `{Demoinfocs} W r req hops resp :
  Request.Method r = MethodPost →
  json_Decode W (Request.Body r) = Ok req →
  NewRequest_error W "GET"
    (HttpRequest.URL (download_request W (ParseRequest.FilePath req)))
  = None →
  client_Do W (download_request W (ParseRequest.FilePath req))
  = (hops, Ok resp) →
  HttpResponse.StatusCode resp ≠ StatusOK →
  let out := parseHandler W ResponseWriter.fresh r in
  let first := download_request W (ParseRequest.FilePath req) in
  answers_error StatusInternalServerError
    ("failed to download demo: status "
     +:+ pretty (HttpResponse.StatusCode resp)) out.1
  ∧ sent out.2 = first :: followed first hops
  ∧ length (sent out.2) = S (length hops)
  ∧ Forall (λ q, HttpRequest.Method q = "GET") (sent out.2).
Proof.
  intros Hm Hreq Hnew Hdo Hst out first. subst out.
  assert (downloadDemo W (ParseRequest.FilePath req)
          = (Err ("failed to download demo: status "
                  +:+ pretty (HttpResponse.StatusCode resp)),
             Sent <$> first :: followed first hops))
    as Hdl.
  { rewrite downloadDemo_paths. cbv zeta. fold first. unfold requests_of.
    fold first in Hnew, Hdo. rewrite Hnew, Hdo. cbn [fst snd].
    by rewrite decide_True. }
  assert (sent (parseHandler W ResponseWriter.fresh r).2
          = first :: followed first hops) as Hsent.
  { rewrite parseHandler_sent, decide_False, Hreq by (by intros []).
    cbv zeta. rewrite Hdl. cbn [fst snd].
    by rewrite app_nil_r, sent_Sent. }
  split.
  - rewrite parseHandler_paths, decide_False, Hreq by (by intros []).
    cbv zeta. rewrite Hdl. cbn [fst snd]. apply http_Error_answers.
  - split; [done|]. rewrite Hsent. split.
    + cbn [length]. by rewrite followed_length.
    + constructor; [done|]. by apply followed_get.
Qed.

Lemma storage_rejection_surfaces_witness :
  answers_error 500 "failed to download demo: status 503"
    (@parseHandler plain_lib storage_down ResponseWriter.fresh
       (Request.mk "POST" parse_body)).1
  ∧ sent (@parseHandler plain_lib storage_down ResponseWriter.fresh
            (Request.mk "POST" parse_body)).2
    = [download_request storage_down "uploads/demo-1.dem"].
Proof.
  destruct (@storage_rejection_surfaces plain_lib storage_down
              (Request.mk "POST" parse_body)
              (ParseRequest.mk "demo-1" "uploads/demo-1.dem") []
              (HttpResponse.mk 503 (list_byte_of_string "busy", None))
              eq_refl eq_refl eq_refl eq_refl)
    as (Hanswer & Hsent & _).
  - done.
  - split; [exact Hanswer | exact Hsent].
Defined.

(** X13.  When the last answer to the delivery, after the redirects the
    client followed, has a status other than 200, the caller of [/parse]
    gets a 500 whose plain-text body names that status and repeats that
    answer's body.  The requests sent are those of the download (the
    download request and one per redirect followed) and then those of the
    delivery: the POST of the marshalled result of the decoding, and one
    request per redirect followed. *)
Theorem webhook_rejection_surfaces `{Demoinfocs} W r req demoData parsedData
    jsonData hops resp :
  Request.Method r = MethodPost →
  json_Decode W (Request.Body r) = Ok req →
  (downloadDemo W (ParseRequest.FilePath req)).1 = Ok demoData →
  parseDemo (ParseRequest.DemoID req) demoData = Returned (Ok parsedData) →
  json_Marshal W parsedData = Ok jsonData →
  NewRequest_error W "POST" (HttpRequest.URL (webhook_request W jsonData))
  = None →
  client_Do W (webhook_request W jsonData) = (hops, Ok resp) →
  HttpResponse.StatusCode resp ≠ StatusOK →
  let out := parseHandler W ResponseWriter.fresh r in
  let download := download_request W (ParseRequest.FilePath req) in
  let delivery := webhook_request W jsonData in
  answers_error StatusInternalServerError
    ("webhook returned status " +:+ pretty (HttpResponse.StatusCode resp)
     +:+ ": " +:+ string_of_list_byte (HttpResponse.ReadAll resp).1) out.1
  ∧ sent out.2
    = (download :: followed download (client_Do W download).1)
      ++ delivery :: followed delivery hops
  ∧ HttpRequest.Method delivery = "POST"
  ∧ HttpRequest.Body delivery = jsonData.
Proof.
  intros Hm Hreq Hdl Hparse Hjson Hnew Hdo Hst out download delivery.
  subst out.
  assert (sendToWebhook W parsedData
          = (Some ("webhook returned status "
                   +:+ pretty (HttpResponse.StatusCode resp)
                   +:+ ": "
                   +:+ string_of_list_byte (HttpResponse.ReadAll resp).1),
             Sent <$> delivery :: followed delivery hops)) as Hsd.
  { rewrite sendToWebhook_paths, Hjson. cbv zeta. fold delivery.
    unfold requests_of. fold delivery in Hnew, Hdo. rewrite Hnew, Hdo.
    cbn [fst snd]. by rewrite decide_True. }
  split; [|split; [|done]].
  - rewrite parseHandler_paths, decide_False, Hreq by (by intros []).
    cbv zeta. rewrite Hdl, Hparse, Hsd. cbn [fst snd].
    apply http_Error_answers.
  - rewrite parseHandler_sent, decide_False, Hreq by (by intros []).
    cbv zeta. rewrite Hdl, Hparse, Hsd. cbn [fst snd].
    by rewrite (downloadDemo_Ok_sent W _ demoData), sent_Sent.
Qed.

Lemma webhook_rejection_surfaces_witness :
  answers_error 500 "webhook returned status 401: denied"
    (@parseHandler match_lib webhook_denies ResponseWriter.fresh
       (Request.mk "POST" parse_body)).1
  ∧ sent (@parseHandler match_lib webhook_denies ResponseWriter.fresh
            (Request.mk "POST" parse_body)).2
    = [download_request webhook_denies "uploads/demo-1.dem";
       webhook_request webhook_denies (list_byte_of_string "{}")].
Proof.
  destruct (@webhook_rejection_surfaces match_lib webhook_denies
              (Request.mk "POST" parse_body)
              (ParseRequest.mk "demo-1" "uploads/demo-1.dem")
              demo_bytes _
              (list_byte_of_string "{}") []
              (HttpResponse.mk 401 (list_byte_of_string "denied", None))
              eq_refl eq_refl eq_refl eq_refl eq_refl eq_refl eq_refl)
    as (Hanswer & Hsent & _).
  - done.
  - split; [exact Hanswer | exact Hsent].
Defined.

(** X14.  On a writer not yet written to, [parseHandler] ends in a panic,
    with nothing written, exactly when the method is POST, the body
    decodes, the download succeeds and [parseDemo] panics.  Otherwise it
    returns with one of the statuses 200, 400, 405 and 500, and with 200
    exactly when the method is POST, the body decodes, the download
    succeeds, [parseDemo] returns a result and the webhook has accepted
    the delivery. *)
Theorem parseHandler_200_iff `{Demoinfocs} W w r :
  ResponseWriter.Status w = None →
  let out := (parseHandler W w r).1 in
  (out = Panic
   ↔ Request.Method r = MethodPost
     ∧ ∃ req demoData,
         json_Decode W (Request.Body r) = Ok req
         ∧ (downloadDemo W (ParseRequest.FilePath req)).1 = Ok demoData
         ∧ parseDemo (ParseRequest.DemoID req) demoData = Panic)
  ∧ (∀ w', out = Returned w' →
       ResponseWriter.Status w' = Some StatusOK
       ∨ ResponseWriter.Status w' = Some StatusBadRequest
       ∨ ResponseWriter.Status w' = Some StatusMethodNotAllowed
       ∨ ResponseWriter.Status w' = Some StatusInternalServerError)
  ∧ ((∃ w', out = Returned w' ∧ ResponseWriter.Status w' = Some StatusOK)
     ↔ Request.Method r = MethodPost
       ∧ ∃ req demoData parsedData,
           json_Decode W (Request.Body r) = Ok req
           ∧ (downloadDemo W (ParseRequest.FilePath req)).1 = Ok demoData
           ∧ parseDemo (ParseRequest.DemoID req) demoData
             = Returned (Ok parsedData)
           ∧ (sendToWebhook W parsedData).1 = None).
Proof.
  intros Hw out. subst out. rewrite parseHandler_paths.
  case_decide as Hm.
  { cbn [fst]. split; [split; [done | by intros [? _]]|]. split.
    - intros w' [= <-]. rewrite http_Error_status by done. by auto.
    - split; [|by intros [? _]]. intros (w' & [= <-] & Hs).
      by rewrite http_Error_status in Hs. }
  destruct (json_Decode W (Request.Body r)) as [req|err].
  2:{ cbn [fst]. split; [split; [done | by intros (_ & ? & ? & [=] & _)]|].
      split.
      - intros w' [= <-]. rewrite http_Error_status by done. by auto.
      - split; [|by intros (_ & ? & ? & ? & [=] & _)].
        intros (w' & [= <-] & Hs). by rewrite http_Error_status in Hs. }
  cbv zeta.
  destruct (downloadDemo W (ParseRequest.FilePath req)).1
    as [demoData|err] eqn:Hdl.
  2:{ cbn [fst]. split.
      { split; [done|]. intros (_ & ? & ? & [= <-] & Hd & _). congruence. }
      split.
      - intros w' [= <-]. rewrite http_Error_status by done. by auto.
      - split; [|intros (_ & ? & ? & ? & [= <-] & Hd & _); congruence].
        intros (w' & [= <-] & Hs). by rewrite http_Error_status in Hs. }
  destruct (parseDemo (ParseRequest.DemoID req) demoData)
    as [[pd|err]|] eqn:Hparse.
  3:{ cbn [fst]. split.
      { split; [|done]. intros _. split; [done|]. by exists req, demoData. }
      split; [done|]. split; [by intros (w' & [=] & _)|].
      intros (_ & ? & ? & ? & [= <-] & Hd & Hp & _). congruence. }
  2:{ cbn [fst]. split.
      { split; [done|]. intros (_ & ? & ? & [= <-] & Hd & Hp). congruence. }
      split.
      - intros w' [= <-]. rewrite http_Error_status by done. by auto.
      - split; [|intros (_ & ? & ? & ? & [= <-] & Hd & Hp & _); congruence].
        intros (w' & [= <-] & Hs). by rewrite http_Error_status in Hs. }
  destruct (sendToWebhook W pd).1 as [err|] eqn:Hsd.
  { cbn [fst]. split.
    { split; [done|]. intros (_ & ? & ? & [= <-] & Hd & Hp). congruence. }
    split.
    - intros w' [= <-]. rewrite http_Error_status by done. by auto.
    - split; [|intros (_ & ? & ? & ? & [= <-] & Hd & Hp & Hs); congruence].
      intros (w' & [= <-] & Hs). by rewrite http_Error_status in Hs. }
  cbn [fst].
  assert (ResponseWriter.Status
            (json_Encode_pair "status" "success"
               (ResponseWriter.WriteHeader StatusOK w)) = Some StatusOK)
    as Hok.
  { unfold json_Encode_pair, ResponseWriter.Write, ResponseWriter.WriteHeader.
    cbn. by rewrite Hw. }
  split.
  { split; [done|]. intros (_ & ? & ? & [= <-] & Hd & Hp). congruence. }
  split; [intros w' [= <-]; by auto|].
  split; [|by eauto]. intros _. split; [done|].
  by exists req, demoData, pd.
Qed.

Lemma parseHandler_200_iff_witness :
  (∃ w',
     (@parseHandler match_lib calm_world ResponseWriter.fresh
        (Request.mk "POST" parse_body)).1 = Returned w'
     ∧ ResponseWriter.Status w' = Some StatusOK)
  ∧ (@parseHandler match_lib empty_download_world ResponseWriter.fresh
       (Request.mk "POST" parse_body)).1 = Panic.
Proof.
  destruct (@parseHandler_200_iff match_lib calm_world ResponseWriter.fresh
              (Request.mk "POST" parse_body) eq_refl) as (_ & _ & Hiff).
  destruct (@parseHandler_200_iff match_lib empty_download_world
              ResponseWriter.fresh (Request.mk "POST" parse_body) eq_refl)
    as (Hpanic & _).
  split.
  - apply Hiff. split; [reflexivity|]. eexists _, _, _. repeat split.
  - apply Hpanic. split; [reflexivity|]. eexists _, _. repeat split.
Defined.

(** X15.  A request with another method than POST, or whose body does
    not decode, has no effect at all.  Otherwise [parseHandler] calls the
    client at most twice.  The requests of the download come first: the
    download request and one GET per redirect followed.  Further
    requests are sent only if the download succeeded and [parseDemo]
    returned a result: they are the POST of the marshalled result and one
    request per redirect followed. *)
Theorem parseHandler_requests `{Demoinfocs} W w r :
  let out := parseHandler W w r in
  (Request.Method r ≠ MethodPost → out.2 = [])
  ∧ (∀ err, json_Decode W (Request.Body r) = Err err → out.2 = [])
  ∧ (sent out.2 = []
     ∨ ∃ req,
         Request.Method r = MethodPost
         ∧ json_Decode W (Request.Body r) = Ok req
         ∧ let download := download_request W (ParseRequest.FilePath req) in
           let chain :=
             download :: followed download (client_Do W download).1 in
           Forall (λ q, HttpRequest.Method q = "GET") chain
           ∧ (sent out.2 = chain
              ∨ ∃ demoData parsedData jsonData,
                  (downloadDemo W (ParseRequest.FilePath req)).1
                  = Ok demoData
                  ∧ parseDemo (ParseRequest.DemoID req) demoData
                    = Returned (Ok parsedData)
                  ∧ json_Marshal W parsedData = Ok jsonData
                  ∧ let delivery := webhook_request W jsonData in
                    sent out.2
                    = chain
                      ++ delivery
                         :: followed delivery (client_Do W delivery).1)).
Proof.
  intros out. subst out. split; [|split].
  - intros Hm. rewrite parseHandler_paths. by rewrite decide_True.
  - intros err Herr. rewrite parseHandler_paths, Herr. by case_decide.
  - rewrite parseHandler_sent. case_decide as Hm; [by left|].
    destruct (json_Decode W (Request.Body r)) as [req|err]; [|by left].
    cbv zeta.
    assert (Forall (λ q, HttpRequest.Method q = "GET")
              (requests_of W (download_request W (ParseRequest.FilePath req))))
      as Hget by (constructor; [done | by apply followed_get]).
    destruct (downloadDemo W (ParseRequest.FilePath req)).1
      as [demoData|err] eqn:Hdl.
    + rewrite (downloadDemo_Ok_sent W _ demoData Hdl).
      right. exists req. split; [done|]. split; [done|].
      split; [exact Hget|].
      destruct (parseDemo (ParseRequest.DemoID req) demoData)
        as [[pd|err]|] eqn:Hparse;
        [|left; by rewrite app_nil_r..].
      destruct (sendToWebhook_sent W pd) as [-> | (jsonData & Hj & ->)];
        [left; by rewrite app_nil_r|].
      right. by exists demoData, pd, jsonData.
    + rewrite app_nil_r.
      destruct (downloadDemo_sent W (ParseRequest.FilePath req)) as [-> | ->];
        [by left|].
      right. exists req. split; [done|]. split; [done|].
      split; [exact Hget|]. by left.
Qed.

Lemma parseHandler_requests_witness :
  (@parseHandler match_lib redirecting_world ResponseWriter.fresh
     (Request.mk "GET" parse_body)).2 = []
  ∧ (sent (@parseHandler match_lib redirecting_world ResponseWriter.fresh
             (Request.mk "POST" parse_body)).2
     = [ download_request redirecting_world "uploads/demo-1.dem";
         HttpRequest.mk "GET" "https://cdn.example/demo-1.dem" ∅ [];
         webhook_request redirecting_world (list_byte_of_string "{}");
         HttpRequest.mk "POST" "https://hook.example/v2"
           (HttpRequest.Header
              (webhook_request redirecting_world
                 (list_byte_of_string "{}")))
           (list_byte_of_string "{}") ]).
Proof.
  destruct (@parseHandler_requests match_lib redirecting_world
              ResponseWriter.fresh (Request.mk "GET" parse_body))
    as (Hget & _).
  split; [by apply Hget | reflexivity].
Defined.

(** X16.  A result carries the demo id it was asked for, one round per
    round-end dispatched and one event per kill dispatched, and as many
    players as identities have an accumulator. *)
Theorem result_shape `{Demoinfocs} demoID data parser d :
  NewParser data = Returned parser →
  parseDemo demoID data = Returned (Ok d) →
  let es := ParserRun.dispatched parser in
  ParsedData.DemoID d = demoID
  ∧ length (ParsedData.Rounds d) = ends es
  ∧ length (ParsedData.Events d) = kills es
  ∧ length (ParsedData.Players d)
    = size (playerStats (run es (initial demoID))).
Proof.
  intros Hnew Hd es.
  apply (parseDemo_Ok _ _ parser) in Hd as (Hcalm & _ & ->); [|done].
  fold es. split; [|split; [|split]].
  - unfold finish. cbn [ParsedData.DemoID].
    by destruct (run_DemoID es (initial demoID)) as [-> _].
  - apply length_rounds.
  - by apply length_events_calm.
  - rewrite finish_Players. unfold drain.
    pose proof (reachable_store_ok demoID es) as [Hpts _].
    rewrite <- (length_map_to_list (playerStats (run es (initial demoID)))).
    assert (∀ L : list (N * nat),
              (∀ kv, kv ∈ L →
                     is_Some (heap (run es (initial demoID)) !! kv.2)) →
              length (omap (λ kv : N * nat,
                              heap (run es (initial demoID)) !! kv.2) L)
              = length L) as Hlen.
    { induction L as [|kv L IH]; intros HL; [done|].
      destruct (HL kv) as [q Hq]; [left|]. cbn. rewrite Hq. cbn.
      f_equal. apply IH. intros kv' Hin. apply HL. by right. }
    apply Hlen. intros [id l] Hin. apply elem_of_map_to_list in Hin.
    destruct (Hpts _ _ Hin) as (q & Hq & _). by exists q.
Qed.

Lemma result_shape_witness :
  ∃ d,
    @parseDemo match_lib "demo-1" demo_bytes = Returned (Ok d)
    ∧ ParsedData.DemoID d = "demo-1"
    ∧ length (ParsedData.Rounds d) = 2%nat
    ∧ length (ParsedData.Events d) = 3%nat
    ∧ length (ParsedData.Players d) = 3%nat.
Proof.
  eexists. split; [reflexivity|].
  exact (@result_shape match_lib "demo-1" demo_bytes _ _ eq_refl eq_refl).
Defined.
